(** * easy-song: the batch admission handler of [content-generation/server.py]

    A shallow embedding of the identifier extractor ([extract_video_id]),
    the existence prober ([check_existing_videos]) and the request handler
    ([handle_process]) of the video processing server, together with the
    properties its specification states about them.

    Python strings are sequences of Unicode code points; they are modelled
    as lists of code points ([N]).  The file system is a tree of
    directories and files, the operating system's answer to a process
    launch is an oracle of the world the handler runs in, and what the
    handler does to that world is recorded as a trace of events.  The
    console and the log take text in UTF-8: a line that cannot be
    encoded raises where it is printed or written. *)

From stdpp Require Import gmap list strings sorting.
From Stdlib Require Import NArith Ascii DecimalString.

#[local] Set Warnings "-register-all".
#[local] Open Scope N_scope.
#[local] Open Scope list_scope.

(** ** Python strings *)

Abbreviation char := N (only parsing).
Abbreviation pystr := (list N) (only parsing).

(** A literal of the source, as its list of code points. *)
Definition str (s : string) : pystr :=
  N_of_ascii <$> String.list_ascii_of_string s.

Definition chr (a : ascii) : char := N_of_ascii a.
Arguments chr : simpl never.

Definition in_range (lo hi c : char) : bool := (lo <=? c) && (c <=? hi).

(** [str.isspace] on one code point: the code points whose Unicode
    bidirectional class is WS, B or S, or whose category is Zs. *)
Definition isspace (c : char) : bool :=
  in_range 9 13 c || in_range 28 32 c || (c =? 133) || (c =? 160)
  || (c =? 5760) || in_range 8192 8202 c || (c =? 8232) || (c =? 8233)
  || (c =? 8239) || (c =? 8287) || (c =? 12288).

Fixpoint lstrip (s : pystr) : pystr :=
  match s with
  | [] => []
  | c :: s' => if isspace c then lstrip s' else s
  end.

Fixpoint rstrip (s : pystr) : pystr :=
  match s with
  | [] => []
  | c :: s' =>
      match rstrip s' with
      | [] => if isspace c then [] else [c]
      | r => c :: r
      end
  end.

(** [url.strip()] *)
Definition strip (s : pystr) : pystr := rstrip (lstrip s).

(** [s.startswith(p)], returning what follows the prefix. *)
Fixpoint strip_prefix (p s : pystr) : option pystr :=
  match p with
  | [] => Some s
  | a :: p' =>
      match s with
      | [] => None
      | b :: s' => if a =? b then strip_prefix p' s' else None
      end
  end.

Definition startswith (s p : pystr) : bool :=
  match strip_prefix p s with Some _ => true | None => false end.

(** [sub in s] *)
Fixpoint contains (s sub : pystr) : bool :=
  startswith s sub || match s with [] => false | _ :: s' => contains s' sub end.

(** [sep.join(parts)] *)
Fixpoint join (sep : pystr) (parts : list pystr) : pystr :=
  match parts with
  | [] => []
  | [p] => p
  | p :: ps => p ++ sep ++ join sep ps
  end.

(** [s.replace(c, by)] for a one-character [c]. *)
Definition replace_char (c : char) (by_ : pystr) (s : pystr) : pystr :=
  mbind (M := list) (fun x => if x =? c then by_ else [x]) s.

(** [str(n)] for the length of a list. *)
Definition str_of_nat (n : nat) : pystr :=
  str (NilEmpty.string_of_uint (Nat.to_uint n)).

(** Comparison of strings as Python orders them: by code point, the
    shorter string first when one is a prefix of the other. *)
Fixpoint str_leb (a b : pystr) : bool :=
  match a, b with
  | [], _ => true
  | _ :: _, [] => false
  | x :: a', y :: b' => (x <? y) || ((x =? y) && str_leb a' b')
  end.

(** [sorted(l)[-1]]: the greatest string of a list. *)
Definition max_str (l : list pystr) : option pystr :=
  foldr (fun x acc =>
           match acc with
           | None => Some x
           | Some y => if str_leb x y then Some y else Some x
           end) None l.

(** ** Writing to the console and to the log

    [sys.stdout] and the file that [open(log_file, 'a')] gives are text
    streams in UTF-8 with strict error handling.  [print] and [write]
    encode the whole text before any of it goes out, and raise
    [UnicodeEncodeError] when it holds a lone surrogate, a code point
    that [json.loads] reads from an escape such as [\udfff]. *)

Definition is_surrogate (c : char) : bool := in_range 55296 57343 c.

(** The text can be encoded. *)
Definition printable (s : pystr) : bool := forallb (fun c => negb (is_surrogate c)) s.

Definition hex_digit (d : N) : char := if d <? 10 then 48 + d else 87 + d.

(** The four digits of ['\\u%04x']. *)
Definition hex4 (c : char) : pystr :=
  [ hex_digit (c / 4096); hex_digit ((c / 256) mod 16);
    hex_digit ((c / 16) mod 16); hex_digit (c mod 16) ].

(** The number of surrogates [s] starts with. *)
Fixpoint surrogate_run (s : pystr) : nat :=
  match s with
  | [] => O
  | c :: s' => if is_surrogate c then S (surrogate_run s') else O
  end.

(** [str(e)] of the [UnicodeEncodeError] for a text whose part from
    position [pos] on is [s]: the encoder stops at the first surrogate
    and reports the run of surrogates that starts there. *)
Fixpoint encode_error_from (pos : nat) (s : pystr) : option pystr :=
  match s with
  | [] => None
  | c :: s' =>
      if is_surrogate c then
        Some (match surrogate_run s' with
              | O =>
                  str "'utf-8' codec can't encode character '\u" ++ hex4 c
                  ++ str "' in position " ++ str_of_nat pos
                  ++ str ": surrogates not allowed"
              | S n =>
                  str "'utf-8' codec can't encode characters in position "
                  ++ str_of_nat pos ++ str "-" ++ str_of_nat (pos + S n)
                  ++ str ": surrogates not allowed"
              end)
      else encode_error_from (S pos) s'
  end.

(** What encoding [s] raises, [None] when it raises nothing. *)
Definition encode_error (s : pystr) : option pystr := encode_error_from 0 s.
Arguments encode_error : simpl never.

(** ** The identifier extractor *)

(** The character class [[a-zA-Z0-9_-]]. *)
Definition is_id_char (c : char) : bool :=
  in_range (chr "a") (chr "z") c || in_range (chr "A") (chr "Z") c
  || in_range (chr "0") (chr "9") c || (c =? chr "_") || (c =? chr "-").

(** The group [([a-zA-Z0-9_-]{11})] matched at the start of [s]: exactly
    eleven characters of the class, whatever follows them. *)
Definition id_group (s : pystr) : option pystr :=
  let g := take 11 s in
  if bool_decide (length g = 11%nat) && forallb is_id_char g
  then Some g else None.

(** The alternatives of the non-capturing group
    [(?:youtube\.com\/watch\?v=|youtu\.be\/|youtube\.com\/embed\/)],
    in the order the pattern lists them. *)
Definition markers : list pystr :=
  [ str "youtube.com/watch?v="; str "youtu.be/"; str "youtube.com/embed/" ].

(** The first pattern matched at the start of [s]: the alternatives are
    tried in order, and the matcher falls back to the next one when the
    group does not follow. *)
Fixpoint match_url_here (ms : list pystr) (s : pystr) : option pystr :=
  match ms with
  | [] => None
  | m :: ms' =>
      match strip_prefix m s with
      | Some r =>
          match id_group r with
          | Some g => Some g
          | None => match_url_here ms' s
          end
      | None => match_url_here ms' s
      end
  end.

(** [re.search] of the first pattern: the leftmost position of [s] at
    which it matches; the value is [match.group(1)]. *)
Fixpoint search_url (s : pystr) : option pystr :=
  match match_url_here markers s with
  | Some g => Some g
  | None => match s with [] => None | _ :: s' => search_url s' end
  end.

(** [re.search] of [^([a-zA-Z0-9_-]{11})$]: without the MULTILINE flag [^]
    matches at the start of the string only, and [$] at its end or just
    before a newline that ends it. *)
Definition search_bare (s : pystr) : option pystr :=
  match id_group s with
  | Some g =>
      match drop 11 s with
      | [] => Some g
      | [c] => if c =? 10 then Some g else None
      | _ => None
      end
  | None => None
  end.

(** [patterns], as the searches they stand for. *)
Definition patterns : list (pystr -> option pystr) := [search_url; search_bare].

Fixpoint first_match (ps : list (pystr -> option pystr)) (url : pystr) : option pystr :=
  match ps with
  | [] => None
  | p :: ps' =>
      match p url with
      | Some g => Some g
      | None => first_match ps' url
      end
  end.

Definition extract_video_id (url : pystr) : option pystr :=
  first_match patterns url.

(** ** The file system

    A tree of directories and files.  [os.path.exists] follows a path
    component by component from the root; symbolic links, access rights
    and the components [.] and [..] are not modelled (the handler builds
    its paths from fixed names and from identifiers of the class above,
    which contain neither a dot component nor a separator). *)

Inductive node :=
| File (content : list N)
| Dir (entries : gmap pystr node).

Fixpoint resolve (n : node) (p : list pystr) : option node :=
  match p with
  | [] => Some n
  | c :: p' =>
      match n with
      | File _ => None
      | Dir entries =>
          match entries !! c with
          | Some n' => resolve n' p'
          | None => None
          end
      end
  end.

Definition flush (acc : pystr) : list pystr :=
  match acc with [] => [] | _ => [acc] end.

(** The components of a path: the pieces between separators, the empty
    ones dropped. [acc] is the component being read. *)
Fixpoint components_from (acc s : pystr) : list pystr :=
  match s with
  | [] => flush acc
  | c :: s' =>
      if c =? chr "/" then flush acc ++ components_from [] s'
      else components_from (acc ++ [c]) s'
  end.

Definition components (s : pystr) : list pystr := components_from [] s.

(** [os.path.join(a, b)] of posixpath. *)
Definition path_join (a b : pystr) : pystr :=
  if startswith b (str "/") then b
  else match last a with
       | None => a ++ b
       | Some c => if c =? chr "/" then a ++ b else a ++ str "/" ++ b
       end.

(** ** The world a request is handled in *)

Inductive popen_result :=
| Started (pid : nat)
| Raised (msg : pystr).

Record world := {
  (** directory of [server.py] *)
  SCRIPT_DIR : pystr;
  (** home directory, as [os.path.expanduser] finds it *)
  HOME : pystr;
  root : node;
  (** [os.environ.get('NODE_PATH')] *)
  NODE_PATH : option pystr;
  (** [datetime.now().strftime('%Y-%m-%d %H:%M:%S')] *)
  now : pystr;
  (** [Some msg] when the system refuses to create the logs directory
      (a file higher up in its path, a directory that cannot be
      written): [os.makedirs] raises an error that prints as [msg] *)
  makedirs_error : option pystr;
  (** [Some msg] when the system refuses the [n]-th thing the request
      asks of the log, be it to open it for appending, to take a line
      or to flush what it took: [open], [write] or [flush] raises an
      error that prints as [msg] *)
  log_error : nat -> option pystr;
  (** what [glob.glob] gives for the pattern of the nvm installations
      when the name of the home directory is itself read as a pattern *)
  glob_home_pattern : list pystr;
  (** what [subprocess.Popen] does with a command, given how many
      workers the batch has started before it *)
  popen : nat -> list pystr -> popen_result
}.

(** [os.path.exists(path)] *)
Definition path_exists (w : world) (path : pystr) : bool :=
  match path with
  | [] => false
  | _ => bool_decide (is_Some (resolve (root w) (components path)))
  end.

(** [os.listdir(path)], empty when [path] is not a directory. *)
Definition listdir (w : world) (path : pystr) : list pystr :=
  match resolve (root w) (components path) with
  | Some (Dir entries) => (map_to_list entries).*1
  | _ => []
  end.

(** [userhome.rstrip('/')] *)
Fixpoint rstrip_slash (s : pystr) : pystr :=
  match s with
  | [] => []
  | c :: s' =>
      match rstrip_slash s' with
      | [] => if c =? chr "/" then [] else [c]
      | r => c :: r
      end
  end.

(** [os.path.expanduser('~' + rest)], [rest] starting with a separator. *)
Definition expanduser (w : world) (rest : pystr) : pystr :=
  rstrip_slash (HOME w) ++ rest.

Definition DATA_DIR (w : world) : pystr := path_join (SCRIPT_DIR w) (str "data").
Definition RAW_LYRICS_DIR (w : world) : pystr := path_join (DATA_DIR w) (str "raw-lyrics").
Definition TRANSCRIBED_LYRICS_DIR (w : world) : pystr :=
  path_join (DATA_DIR w) (str "transcribed-lyrics").
Definition LOGS_DIR (w : world) : pystr := path_join (SCRIPT_DIR w) (str "logs").

(** ** The existence prober *)

Record existing_t := {
  raw_lyrics : list pystr;
  transcribed_lyrics : list pystr;
  both : list pystr
}.

Definition has_raw (w : world) (video_id : pystr) : bool :=
  path_exists w (path_join (RAW_LYRICS_DIR w) (video_id ++ str ".json")).

Definition has_transcribed (w : world) (video_id : pystr) : bool :=
  path_exists w (path_join (TRANSCRIBED_LYRICS_DIR w) (video_id ++ str ".json")).

(** One turn of the loop of [check_existing_videos]. *)
Definition probe (w : world) (existing : existing_t) (video_id : pystr) : existing_t :=
  if has_raw w video_id && has_transcribed w video_id then
    {| raw_lyrics := raw_lyrics existing;
       transcribed_lyrics := transcribed_lyrics existing;
       both := both existing ++ [video_id] |}
  else if has_raw w video_id then
    {| raw_lyrics := raw_lyrics existing ++ [video_id];
       transcribed_lyrics := transcribed_lyrics existing;
       both := both existing |}
  else if has_transcribed w video_id then
    {| raw_lyrics := raw_lyrics existing;
       transcribed_lyrics := transcribed_lyrics existing ++ [video_id];
       both := both existing |}
  else existing.

Definition check_existing_videos (w : world) (video_ids : list pystr) : existing_t :=
  foldl (probe w)
        {| raw_lyrics := []; transcribed_lyrics := []; both := [] |}
        video_ids.

(** ** Effects of the dispatch block

    Everything between [try:] and [except Exception as e:] of the dispatch
    block either goes on or raises; what it has done to the world up to
    that point stays done.  A computation takes the trace so far and
    gives a value or the raised error's text, with the trace extended. *)

Inductive event :=
| Makedirs (path : pystr)
| LogWrite (file text : pystr)
| Popen (cmd : list pystr) (cwd : pystr) (node_path : option pystr) (pid : nat)
| PopenFailed (cmd : list pystr) (cwd : pystr) (node_path : option pystr).

Definition M (A : Type) : Type := list event -> (pystr + A) * list event.

#[export] Instance M_ret : MRet M := fun A a tr => (inr a, tr).
#[export] Instance M_bind : MBind M := fun A B k m tr =>
  match m tr with
  | (inl e, tr') => (inl e, tr')
  | (inr a, tr') => k a tr'
  end.

Definition emit (e : event) : M unit := fun tr => (inr (), tr ++ [e]).
Definition raise {A} (msg : pystr) : M A := fun tr => (inl msg, tr).

(** What [os.makedirs(path, exist_ok=True)] raises: a file in the place
    of the directory is in its way, and the system may refuse for
    reasons of its own. *)
Definition makedirs_raises (w : world) (path : pystr) : option pystr :=
  match resolve (root w) (components path) with
  | Some (File _) => Some (str "[Errno 17] File exists: '" ++ path ++ [39])
  | _ => makedirs_error w
  end.

(** [os.makedirs(path, exist_ok=True)] *)
Definition os_makedirs (w : world) (path : pystr) : M unit :=
  match makedirs_raises w path with
  | Some msg => raise msg
  | None => emit (Makedirs path)
  end.

(** [print(text)]: the line goes to the console, which is no part of the
    world the trace records, or the encoder raises. *)
Definition py_print (text : pystr) : M unit :=
  match encode_error text with
  | Some msg => raise msg
  | None => mret ()
  end.

(** What [open(file, 'a')] raises as the [n]-th thing asked of the log:
    a directory in the place of the file cannot be opened for writing,
    and the system may refuse for reasons of its own. *)
Definition open_raises (w : world) (n : nat) (file : pystr) : option pystr :=
  match resolve (root w) (components file) with
  | Some (Dir _) => Some (str "[Errno 21] Is a directory: '" ++ file ++ [39])
  | _ => log_error w n
  end.

(** [with open(file, 'a') as log:] *)
Definition log_open (w : world) (n : nat) (file : pystr) : M unit :=
  match open_raises w n file with
  | Some msg => raise msg
  | None => mret ()
  end.

(** [log.write(text)] on the log opened for appending, as the [n]-th
    thing asked of it: the text is encoded, then written; what was
    written before stays in the log when a later [write] of the same
    block raises. *)
Definition log_write (w : world) (n : nat) (file text : pystr) : M unit :=
  match encode_error text with
  | Some msg => raise msg
  | None =>
      match log_error w n with
      | Some msg => raise msg
      | None => emit (LogWrite file text)
      end
  end.

(** [log.flush()] *)
Definition log_flush (w : world) (n : nat) : M unit :=
  match log_error w n with
  | Some msg => raise msg
  | None => mret ()
  end.

(** [subprocess.Popen(cmd, cwd=SCRIPT_DIR, ..., env=env)], giving [process.pid]. *)
Definition os_popen (w : world) (started : nat) (cmd : list pystr)
    (node_path : option pystr) : M nat :=
  match popen w started cmd with
  | Started pid => emit (Popen cmd (SCRIPT_DIR w) node_path pid) ;; mret pid
  | Raised msg => emit (PopenFailed cmd (SCRIPT_DIR w) node_path) ;; raise msg
  end.

(** ** Resolution of the worker runtime *)

(** Truth value of a variable that holds a string or [None]. *)
Definition truthy (o : option pystr) : bool :=
  match o with Some (_ :: _) => true | _ => false end.

(** [glob.has_magic]: the text has a character that patterns are
    written with. *)
Definition has_magic (s : pystr) : bool :=
  existsb (fun c => (c =? chr "*") || (c =? chr "?") || (c =? chr "[")) s.

(** [glob.glob(os.path.expanduser('~/.nvm/versions/node/v20*/bin/node'))].
    The one pattern the source writes is [v20*]: the entries of
    [versions/node] whose name starts with [v20] are tried for
    [bin/node].  The expanded home directory is part of the text given
    to [glob], though, which reads any [*], [?] or [[] in it as pattern
    as well; what it finds then is left to the world. *)
Definition nvm_nodes (w : world) : list pystr :=
  let versions := expanduser w (str "/.nvm/versions/node") in
  if has_magic versions then glob_home_pattern w
  else
    filter (fun p => path_exists w p)
      ((fun name => path_join (path_join (path_join versions name) (str "bin")) (str "node"))
         <$> filter (fun name => startswith name (str "v20")) (listdir w versions)).

Definition common_paths (w : world) : list pystr :=
  [ str "/usr/local/bin/node20";
    str "/usr/bin/node20";
    str "/opt/homebrew/bin/node20";
    expanduser w (str "/.nvm/versions/node/v20.0.0/bin/node");
    expanduser w (str "/.nvm/versions/node/v20.11.0/bin/node");
    expanduser w (str "/.nvm/versions/node/v20.10.0/bin/node") ].

Record runtime := {
  node_cmd : option pystr;
  use_nvm_bash : bool;
  nvm_source : option pystr
}.

Definition resolve_runtime (w : world) : runtime :=
  (* Method 1 *)
  let node_cmd1 := max_str (nvm_nodes w) in
  (* Method 2 *)
  let node_cmd2 :=
    if truthy node_cmd1 then node_cmd1
    else head (filter (fun p => path_exists w p) (common_paths w)) in
  (* Method 3 *)
  if truthy node_cmd2 then
    {| node_cmd := node_cmd2; use_nvm_bash := false; nvm_source := None |}
  else
    let nvm_sh := expanduser w (str "/.nvm/nvm.sh") in
    if path_exists w nvm_sh then
      {| node_cmd := node_cmd2; use_nvm_bash := true; nvm_source := Some nvm_sh |}
    else
      {| node_cmd := Some (str "node"); use_nvm_bash := false; nvm_source := Some nvm_sh |}.

(** The lines the resolution prints as it goes: the one of method 1
    (line 381) when [glob] found something, the one of method 2
    (line 396) for the common path taken.  The lines of method 3 are
    constant. *)
Definition report_runtime (w : world) : M unit :=
  let node_cmd1 := max_str (nvm_nodes w) in
  match nvm_nodes w with
  | [] => mret ()
  | _ => py_print (str "[POST] /api/process - Using Node from nvm: " ++ default [] node_cmd1)
  end ;;
  if truthy node_cmd1 then mret ()
  else
    match head (filter (fun p => path_exists w p) (common_paths w)) with
    | Some path => py_print (str "[POST] /api/process - Using Node from path: " ++ path)
    | None => mret ()
    end.

(** [os.path.relpath(SCRIPT_PATH, SCRIPT_DIR)]: the script sits in
    [scripts/] below the directory it is taken relative to. *)
Definition script_rel_path : pystr := str "scripts/download-and-transcribe.ts".

(** The replacement text of the two [replace] calls: a quote, a double
    quote, a quote, a double quote, a quote. *)
Definition quote_escape : pystr := [39; 34; 39; 34; 39].

Definition build_cmd (rt : runtime) (video_id : pystr) : list pystr :=
  if use_nvm_bash rt then
    let escaped_script := replace_char 39 quote_escape script_rel_path in
    let escaped_video_id := replace_char 39 quote_escape video_id in
    [ str "bash"; str "-c";
      str "source " ++ default [] (nvm_source rt)
      ++ str " && nvm use 20 > /dev/null 2>&1 && node -r ts-node/register "
      ++ escaped_script ++ str " --skip-existing " ++ escaped_video_id ]
  else if truthy (node_cmd rt) then
    [ default [] (node_cmd rt); str "-r"; str "ts-node/register"; script_rel_path;
      str "--skip-existing"; video_id ]
  else
    [ str "node"; str "-r"; str "ts-node/register"; script_rel_path;
      str "--skip-existing"; video_id ].

(** The [NODE_PATH] the workers are given. *)
Definition worker_node_path (w : world) : option pystr :=
  let content_gen_node_modules := path_join (SCRIPT_DIR w) (str "node_modules") in
  if path_exists w content_gen_node_modules then
    match NODE_PATH w with
    | Some old => Some (content_gen_node_modules ++ str ":" ++ old)
    | None => Some content_gen_node_modules
    end
  else NODE_PATH w.

(** ** The worker dispatcher *)

Definition rule : pystr := replicate 80 (chr "=").

(** The loop over [new_video_ids]; [process_pids] is the list built so
    far.  The header of the batch asked five things of the log (to
    open, three lines, to flush), and every turn asks five more: to open
    for the two lines of the worker, the lines, to flush, and to open
    for the worker to write to. *)
Fixpoint launch_all (w : world) (rt : runtime) (log_file : pystr)
    (ids : list pystr) (process_pids : list nat) : M (list nat) :=
  match ids with
  | [] => mret process_pids
  | video_id :: rest =>
      let cmd := build_cmd rt video_id in
      let n := (5 + 5 * length process_pids)%nat in
      log_open w n log_file ;;
      log_write w (1 + n) log_file ([10] ++ str "[Starting] Video ID: " ++ video_id ++ [10]) ;;
      log_write w (2 + n) log_file (str "Command: " ++ join (str " ") cmd ++ [10]) ;;
      log_flush w (3 + n) ;;
      log_open w (4 + n) log_file ;;
      pid ← os_popen w (length process_pids) cmd (worker_node_path w) ;
      py_print (str "[POST] /api/process - Started process for " ++ video_id
                ++ str " (PID: " ++ str_of_nat pid ++ str ")") ;;
      launch_all w rt log_file rest (process_pids ++ [pid])
  end.

(** The body of the inner [try]: its value is [(process_pids, log_file)].
    Of the lines it prints, the ones that show a text of the world or
    of the request are kept; a line of constants and numbers cannot
    raise. *)
Definition start_workers (w : world) (new_video_ids : list pystr) : M (list nat * pystr) :=
  let rt := resolve_runtime w in
  report_runtime w ;;
  os_makedirs w (LOGS_DIR w) ;;
  let log_file := path_join (LOGS_DIR w) (str "process.log") in
  log_open w 0 log_file ;;
  log_write w 1 log_file ([10] ++ rule ++ [10]) ;;
  log_write w 2 log_file
    (str "[" ++ now w ++ str "] Starting batch: " ++ str_of_nat (length new_video_ids)
     ++ str " video(s): " ++ join (str ", ") new_video_ids ++ [10]) ;;
  log_write w 3 log_file (rule ++ [10]) ;;
  log_flush w 4 ;;
  process_pids ← launch_all w rt log_file new_video_ids [] ;
  py_print (str "[POST] /api/process - Log file: " ++ log_file ++ str " (appending)") ;;
  mret (process_pids, log_file).

(** ** The request handler *)

(** The JSON object a response carries, a key absent when the handler
    does not set it, and the status it is sent with. *)
Record response := {
  status : nat;
  success : bool;
  error : option pystr;
  message : option pystr;
  video_ids : option (list pystr);
  new_video_ids : option (list pystr);
  invalid_urls : option (list pystr);
  existing : option existing_t;
  process_ids : option (list nat);
  log_file : option pystr;
  skipped : option bool
}.

Definition failure (code : nat) (msg : pystr) (invalid : option (list pystr)) : response :=
  {| status := code; success := false; error := Some msg; message := None;
     video_ids := None; new_video_ids := None; invalid_urls := invalid;
     existing := None; process_ids := None; log_file := None; skipped := None |}.

(** One turn of the loop that extracts the identifiers: the state is
    [(video_ids, invalid_urls)]. *)
Definition collect (acc : list pystr * list pystr) (url : pystr) : list pystr * list pystr :=
  let url := strip url in
  match url with
  | [] => acc
  | _ =>
      let video_id := extract_video_id url in
      if truthy video_id then (acc.1 ++ [default [] video_id], acc.2)
      else (acc.1, acc.2 ++ [url])
  end.

Definition collect_all (urls : list pystr) : list pystr * list pystr :=
  foldl collect ([], []) urls.

(** The line a turn of the loop prints for its reference (lines 325 and
    328); a blank reference is passed over before anything is printed. *)
Definition reported_line (url : pystr) : option pystr :=
  let url := strip url in
  match url with
  | [] => None
  | _ =>
      let video_id := extract_video_id url in
      if truthy video_id then
        Some (str "[POST] /api/process - Extracted video ID: " ++ default [] video_id
              ++ str " from " ++ url)
      else Some (str "[POST] /api/process - Invalid URL: " ++ url)
  end.

(** One turn of the loop as the handler runs it: the lists grow as in
    [collect], then the line is printed, which raises when the
    reference cannot be encoded. *)
Definition collect_step (acc : list pystr * list pystr) (url : pystr)
    : pystr + list pystr * list pystr :=
  let acc' := collect acc url in
  match reported_line url ≫= encode_error with
  | Some msg => inl msg
  | None => inr acc'
  end.

(** The loop: the two lists, or the text of the exception that ends it. *)
Fixpoint collect_loop (acc : list pystr * list pystr) (urls : list pystr)
    : pystr + list pystr * list pystr :=
  match urls with
  | [] => inr acc
  | url :: rest =>
      match collect_step acc url with
      | inl msg => inl msg
      | inr acc' => collect_loop acc' rest
      end
  end.

(** The list comprehension that keeps the identifiers found in no bucket. *)
Definition filter_new (existing : existing_t) (video_ids : list pystr) : list pystr :=
  filter (fun vid => (vid ∉ both existing) ∧ (vid ∉ raw_lyrics existing)
                     ∧ (vid ∉ transcribed_lyrics existing)) video_ids.

(** The response of the no-op path. *)
Definition all_exist (video_ids invalid : list pystr) (found : existing_t) : response :=
  {| status := 200; success := true; error := None;
     message := Some (str "All videos already exist");
     video_ids := Some video_ids; new_video_ids := None;
     invalid_urls := Some invalid; existing := Some found;
     process_ids := None; log_file := None; skipped := Some true |}.

(** The response after every worker was started. *)
Definition processing (video_ids new_ids invalid : list pystr) (found : existing_t)
    (process_pids : list nat) (log : pystr) : response :=
  {| status := 200; success := true; error := None;
     message := Some (str "Processing " ++ str_of_nat (length new_ids)
                      ++ str " new video(s) in background");
     video_ids := Some video_ids; new_video_ids := Some new_ids;
     invalid_urls := Some invalid; existing := Some found;
     process_ids := Some process_pids; log_file := Some log;
     skipped := None |}.

(** [error_msg] of the handler of the inner [try], from [str(e)]. *)
Definition error_msg (e : pystr) : pystr :=
  if contains e (str "package.json") && contains e (str "SyntaxError")
  then e ++ str " (There may be a malformed package.json in a parent directory. Check /mnt/media/c/easysong/package.json)"
  else e.

(** The handler of the inner [try]: it prints the error (line 486) and
    answers with it.  When the error itself cannot be printed, the
    exception of [print] leaves this handler for the outer one, which
    answers with the text of that exception. *)
Definition dispatch_failed (e : pystr) : response :=
  match encode_error (str "[POST] /api/process - Error starting process: " ++ e) with
  | Some msg => failure 500 msg None
  | None => failure 500 (str "Failed to start process: " ++ error_msg e) None
  end.

(** [handle_process] once the two lists are built. *)
Definition process_videos (w : world) (video_ids invalid_urls : list pystr)
    : response * list event :=
  match video_ids with
  | [] => (failure 400 (str "No valid YouTube video IDs found") (Some invalid_urls), [])
  | _ =>
      let existing := check_existing_videos w video_ids in
      let new_video_ids := filter_new existing video_ids in
      match new_video_ids with
      | [] => (all_exist video_ids invalid_urls existing, [])
      | _ =>
          match start_workers w new_video_ids [] with
          | (inr (process_pids, log_file), tr) =>
              (processing video_ids new_video_ids invalid_urls existing
                 process_pids log_file, tr)
          | (inl e, tr) => (dispatch_failed e, tr)
          end
      end
  end.

(** [handle_process] from the decoded [urls] on: the response sent and
    what was done to the world on the way.  The submission is well
    formed: its body decoded to a list of strings.  An exception of the
    extraction loop is answered by the last [except] branch, with
    status 500 and the text of the exception. *)
Definition handle_process (w : world) (urls : list pystr) : response * list event :=
  match urls with
  | [] => (failure 400 (str "No URLs provided") None, [])
  | _ =>
      match collect_loop ([], []) urls with
      | inl msg => (failure 500 msg None, [])
      | inr (video_ids, invalid_urls) => process_videos w video_ids invalid_urls
      end
  end.

(** ** Worlds and batches to run the handler on *)

Definition vid1 : pystr := str "dQw4w9WgXcQ".
Definition vid2 : pystr := str "9bZkp7q19f0".
Definition vid3 : pystr := str "kJQP7kiw5Fk".

Definition dir (entries : list (pystr * node)) : node := Dir (list_to_map entries).

(** A fresh checkout in [/srv/cg]: no artifact in either tier. *)
Definition fresh_root : node :=
  dir [ (str "srv", dir [ (str "cg", dir [ (str "scripts", dir []) ]) ]) ].

(** The same with [dQw4w9WgXcQ.json] in both tiers, the raw one empty. *)
Definition done_root : node :=
  dir [ (str "srv", dir [ (str "cg", dir [
    (str "data", dir [
       (str "raw-lyrics", dir [ (vid1 ++ str ".json", File []) ]);
       (str "transcribed-lyrics", dir [ (vid1 ++ str ".json", File (str "{}")) ]) ]) ]) ]) ].

Definition mk_world (r : node) (p : nat -> list pystr -> popen_result) : world :=
  {| SCRIPT_DIR := str "/srv/cg"; HOME := str "/home/u"; root := r; NODE_PATH := None;
     now := str "2024-01-01 00:00:00"; makedirs_error := None;
     log_error := fun _ => None; glob_home_pattern := []; popen := p |}.

(** Every launch succeeds; the workers get the process ids 100, 101, ... *)
Definition popen_ok (started : nat) (cmd : list pystr) : popen_result :=
  Started (100 + started).

(** The second launch of a batch fails, the others succeed. *)
Definition popen_second_fails (started : nat) (cmd : list pystr) : popen_result :=
  if bool_decide (started = 1%nat) then Raised (str "[Errno 11] Resource temporarily unavailable")
  else Started (100 + started).

(** No launch succeeds: there is no [node] to run. *)
Definition popen_no_node (started : nat) (cmd : list pystr) : popen_result :=
  Raised (str "[Errno 2] No such file or directory: 'node'").

Definition spec_batch : list pystr :=
  [ str "https://youtu.be/dQw4w9WgXcQ"; str "dQw4w9WgXcQ"; str "not-a-url" ].

(** A home with two versions of Node 20 installed by nvm. *)
Definition nvm_root : node :=
  dir [ (str "home", dir [ (str "u", dir [ (str ".nvm", dir [
          (str "nvm.sh", File []);
          (str "versions", dir [ (str "node", dir [
             (str "v18.19.0", dir [ (str "bin", dir [ (str "node", File []) ]) ]);
             (str "v20.9.0", dir [ (str "bin", dir [ (str "node", File []) ]) ]);
             (str "v20.11.0", dir [ (str "bin", dir [ (str "node", File []) ]) ]) ]) ]) ]) ]) ]);
        (str "srv", dir [ (str "cg", dir []) ]) ].

(** A home where nvm is installed but no Node 20 is. *)
Definition nvm_only_root : node :=
  dir [ (str "home", dir [ (str "u", dir [ (str ".nvm", dir [ (str "nvm.sh", File []) ]) ]) ]) ].

(** A checkout where a file stands in the place of the logs directory. *)
Definition logs_file_root : node :=
  dir [ (str "srv", dir [ (str "cg", dir [ (str "logs", File []) ]) ]) ].

(** A checkout where a directory stands in the place of the log. *)
Definition log_dir_root : node :=
  dir [ (str "srv", dir [ (str "cg", dir [
    (str "logs", dir [ (str "process.log", dir []) ]) ]) ]) ].

(** A home directory with a bracket in its name, and two versions of
    Node 20 in it. *)
Definition bracket_root : node :=
  dir [ (str "home", dir [ (str "u[1]", dir [ (str ".nvm", dir [
          (str "versions", dir [ (str "node", dir [
             (str "v20.9.0", dir [ (str "bin", dir [ (str "node", File []) ]) ]);
             (str "v20.11.0", dir [ (str "bin", dir [ (str "node", File []) ]) ]) ]) ]) ]) ]) ]) ].

(** The world of that home: [glob] reads the bracket as a class of
    characters, which the name of the directory does not match, and
    finds nothing. *)
Definition bracket_world : world :=
  {| SCRIPT_DIR := str "/srv/cg"; HOME := str "/home/u[1]"; root := bracket_root;
     NODE_PATH := None; now := str "2024-01-01 00:00:00"; makedirs_error := None;
     log_error := fun _ => None; glob_home_pattern := []; popen := popen_ok |}.

(** ** The vocabulary of the properties *)

(** A canonical identifier: eleven characters of the class. *)
Definition valid_token (t : pystr) : Prop :=
  length t = 11%nat ∧ forallb is_id_char t = true.

(** Some marker is written at the start of [s]. *)
Definition marker_here (s : pystr) : bool := existsb (startswith s) markers.

(** No marker starts at any of the first [n] positions of [s]. *)
Fixpoint no_marker_before (n : nat) (s : pystr) : bool :=
  match n with
  | O => true
  | S n' =>
      negb (marker_here s)
      && match s with [] => true | _ :: s' => no_marker_before n' s' end
  end.

(** A head without the letter every marker starts with, such as
    [https://www.] or [http://m.]. *)
Definition plain_head (h : pystr) : bool :=
  forallb (fun c => negb (c =? chr "y")) h.

(** What one submitted reference adds to [video_ids]. *)
Definition accepted (url : pystr) : option pystr :=
  match strip url with
  | [] => None
  | s => extract_video_id s
  end.

(** What one submitted reference adds to [invalid_urls]. *)
Definition rejected (url : pystr) : option pystr :=
  match strip url with
  | [] => None
  | s => match extract_video_id s with Some _ => None | None => Some s end
  end.

Definition no_slash (s : pystr) : bool := forallb (fun c => negb (c =? chr "/")) s.

(** The commands the trace shows a launch attempt for, in order. *)
Definition launches (tr : list event) : list (list pystr) :=
  omap (fun e => match e with
                 | Popen cmd _ _ _ | PopenFailed cmd _ _ => Some cmd
                 | _ => None
                 end) tr.

(** The process ids the operating system gives when it starts a worker
    for each of [ids] in turn, [started] workers being up already;
    [None] when one of the launches raises. *)
Fixpoint starts (w : world) (rt : runtime) (started : nat) (ids : list pystr)
    : option (list nat) :=
  match ids with
  | [] => Some []
  | video_id :: rest =>
      match popen w started (build_cmd rt video_id) with
      | Started pid => (pid ::.) <$> starts w rt (S started) rest
      | Raised _ => None
      end
  end.

(** The identifiers recognised in a batch, and the ones it admits. *)
Definition recognised (urls : list pystr) : list pystr := (collect_all urls).1.
Definition invalid (urls : list pystr) : list pystr := (collect_all urls).2.
Definition found (w : world) (urls : list pystr) : existing_t :=
  check_existing_videos w (recognised urls).
Definition admitted (w : world) (urls : list pystr) : list pystr :=
  filter_new (found w urls) (recognised urls).

(** Every reference of the batch can be printed as the loop reads it. *)
Definition printable_batch (urls : list pystr) : Prop :=
  ∀ u, u ∈ urls → printable (strip u) = true.

(** The text of the runtime that goes into the commands. *)
Definition printable_runtime (rt : runtime) : bool :=
  if use_nvm_bash rt then printable (default [] (nvm_source rt))
  else printable (default [] (node_cmd rt)).

(** What the dispatch block shows of the world can be printed: the time
    of the batch, the runtime and the path of the log. *)
Definition console_ready (w : world) : Prop :=
  printable (now w) = true
  ∧ printable_runtime (resolve_runtime w) = true
  ∧ printable (path_join (LOGS_DIR w) (str "process.log")) = true.

(** The log takes the first [n] things asked of it: no directory
    stands in its place, and the system refuses none of them. *)
Definition log_takes (w : world) (n : nat) : Prop :=
  ∀ k, (k < n)%nat → open_raises w k (path_join (LOGS_DIR w) (str "process.log")) = None.

(** The six ways a well-formed submission leaves the handler. *)
Inductive handled (w : world) (urls : list pystr) : response * list event → Prop :=
| handled_no_urls :
    urls = [] →
    handled w urls (failure 400 (str "No URLs provided") None, [])
| handled_print_raised msg :
    urls ≠ [] → collect_loop ([], []) urls = inl msg →
    handled w urls (failure 500 msg None, [])
| handled_no_ids :
    urls ≠ [] → printable_batch urls → recognised urls = [] →
    handled w urls
      (failure 400 (str "No valid YouTube video IDs found") (Some (invalid urls)), [])
| handled_all_exist :
    printable_batch urls → recognised urls ≠ [] → admitted w urls = [] →
    handled w urls (all_exist (recognised urls) (invalid urls) (found w urls), [])
| handled_processing pids log tr :
    printable_batch urls → recognised urls ≠ [] → admitted w urls ≠ [] →
    start_workers w (admitted w urls) [] = (inr (pids, log), tr) →
    handled w urls
      (processing (recognised urls) (admitted w urls) (invalid urls) (found w urls)
         pids log, tr)
| handled_failed e tr :
    printable_batch urls → recognised urls ≠ [] → admitted w urls ≠ [] →
    start_workers w (admitted w urls) [] = (inl e, tr) →
    handled w urls (dispatch_failed e, tr).

(** ** The rest of the server: strings *)

(** [s.replace(old, new)] for a literal [old] that is not empty: the
    occurrences are taken from the left and do not overlap.  Every turn
    uses up a character of [s], so its length is fuel enough. *)
Fixpoint replace_from (fuel : nat) (old new s : pystr) : pystr :=
  match fuel with
  | O => s
  | S fuel' =>
      match strip_prefix old s with
      | Some r => new ++ replace_from fuel' old new r
      | None =>
          match s with
          | [] => []
          | c :: s' => c :: replace_from fuel' old new s'
          end
      end
  end.

Definition replace (old new s : pystr) : pystr :=
  replace_from (S (length s)) old new s.

(** [s.split(c)[0]]: what stands before the first [c]. *)
Fixpoint before (c : char) (s : pystr) : pystr :=
  match s with
  | [] => []
  | x :: s' => if x =? c then [] else x :: before c s'
  end.

(** [s.endswith(suf)] *)
Definition endswith (s suf : pystr) : bool := bool_decide (suf `suffix_of` s).

(** The order [sorted] puts strings in. *)
Definition str_le (a b : pystr) : Prop := str_leb a b = true.

#[export] Instance str_le_dec : RelDecision str_le.
Proof. intros a b. unfold str_le. apply _. Defined.

(** [sorted(l)] *)
Definition sorted (l : list pystr) : list pystr := merge_sort str_le l.

(** ** The rest of the server: the list of songs *)

Definition get_existing_songs (w : world) : list pystr :=
  if path_exists w (RAW_LYRICS_DIR w) then
    sorted (replace (str ".json") [] <$>
              filter (fun file => endswith file (str ".json")) (listdir w (RAW_LYRICS_DIR w)))
  else [].

(** ** The rest of the server: decoded JSON *)

Inductive json :=
| JNull
| JBool (b : bool)
| JInt (n : Z)
| JFloat (repr : pystr)
| JStr (s : pystr)
| JArr (items : list json)
| JObj (members : list (pystr * json)).

(** [type(v).__name__] of a decoded value. *)
Definition type_name (v : json) : pystr :=
  match v with
  | JNull => str "NoneType"
  | JBool _ => str "bool"
  | JInt _ => str "int"
  | JFloat _ => str "float"
  | JStr _ => str "str"
  | JArr _ => str "list"
  | JObj _ => str "dict"
  end.

(** The text of the [AttributeError] for [v.attr]. *)
Definition no_attribute (v : json) (attr : pystr) : pystr :=
  [39] ++ type_name v ++ str "' object has no attribute '" ++ attr ++ [39].

(** The text of the [TypeError] for [len(v)]. *)
Definition no_len (v : json) : pystr :=
  str "object of type '" ++ type_name v ++ str "' has no len()".

(** [d.get(key, default)] on the members of an object as the document
    lists them: the last member of a name is the one the dict keeps. *)
Fixpoint dict_get (key : pystr) (members : list (pystr * json)) (default_ : json) : json :=
  match members with
  | [] => default_
  | (k, v) :: rest =>
      if bool_decide (k = key) then dict_get key rest v else dict_get key rest default_
  end.

(** The keys of the dict, in the order of their first appearance. *)
Definition dict_keys (members : list (pystr * json)) : list pystr :=
  reverse (remove_dups (reverse members.*1)).

(** ** The rest of the server: the request for processing *)

(** What [post_data.decode('utf-8')] and [json.loads] make of the body. *)
Inductive post_data :=
| Undecodable (msg : pystr)
| Malformed
| Decoded (data : json).

(** The values [for url in urls] goes through; [len(urls)] in the line
    that reports the count raises for a value without a length. *)
Definition iterate (urls : json) : pystr + list json :=
  match urls with
  | JArr items => inr items
  | JStr s => inr ((fun c => JStr [c]) <$> s)
  | JObj members => inr (JStr <$> dict_keys members)
  | _ => inl (no_len urls)
  end.

(** The strings of the list, or the error of [url.strip()] on the first
    value that is not a string. *)
Fixpoint strings (items : list json) : pystr + list pystr :=
  match items with
  | [] => inr []
  | JStr s :: rest =>
      match strings rest with
      | inr l => inr (s :: l)
      | inl e => inl e
      end
  | v :: _ => inl (no_attribute v (str "strip"))
  end.

(** The extraction loop on the values as they come: [url.strip()]
    raises on the first value that is not a string, after the
    references before it have been read and printed. *)
Fixpoint request_loop (acc : list pystr * list pystr) (items : list json)
    : pystr + list pystr * list pystr :=
  match items with
  | [] => inr acc
  | JStr url :: rest =>
      match collect_step acc url with
      | inl msg => inl msg
      | inr acc' => request_loop acc' rest
      end
  | v :: _ => inl (no_attribute v (str "strip"))
  end.

(** [handle_process] from the body on. *)
Definition handle_request (w : world) (body : post_data) : response * list event :=
  match body with
  | Malformed => (failure 400 (str "Invalid JSON") None, [])
  | Undecodable msg => (failure 500 msg None, [])
  | Decoded data =>
      match data with
      | JObj members =>
          let urls := dict_get (str "urls") members (JArr []) in
          match iterate urls with
          | inl e => (failure 500 e None, [])
          | inr [] => (failure 400 (str "No URLs provided") None, [])
          | inr items =>
              match request_loop ([], []) items with
              | inl e => (failure 500 e None, [])
              | inr (video_ids, invalid_urls) => process_videos w video_ids invalid_urls
              end
          end
      | _ => (failure 500 (no_attribute data (str "get")) None, [])
      end
  end.

(** [do_POST]: [None] stands for [send_error(404)]. *)
Definition do_POST (w : world) (path : pystr) (body : post_data)
    : option response * list event :=
  if bool_decide (path = str "/api/process") then
    let '(r, tr) := handle_request w body in (Some r, tr)
  else (None, []).

(** ** The rest of the server: the pages *)

Inductive reply :=
(** [send_error(code, message)] *)
| SendError (code : nat) (message : pystr)
(** status 200 and the JSON text of a song *)
| SendJson (body : list N)
(** status 200 and [{'songs': songs}] *)
| SendSongs (songs : list pystr)
(** status 200 and the detail page, the template filled with the
    identifier, the kind of file and the data of the song *)
| SendPage (video_id file_type : pystr) (song_data : json)
(** status 200 and the bytes of [index.html] *)
| SendIndex (content : list N)
(** the request is left to [SimpleHTTPRequestHandler] *)
| Static (path : pystr)
(** an exception leaves the handler *)
| Unhandled (msg : pystr).

(** [open(path)] and reading all of it. *)
Definition read_file (w : world) (path : pystr) : pystr + list N :=
  match resolve (root w) (components path) with
  | Some (File content) => inr content
  | Some (Dir _) => inl (str "[Errno 21] Is a directory: '" ++ path ++ [39])
  | None => inl (str "[Errno 2] No such file or directory: '" ++ path ++ [39])
  end.

(** Inside a [try]: the next step runs on the value of the one before,
    or the exception goes through. *)
Definition and_then {E A B} (x : E + A) (f : A → E + B) : E + B :=
  match x with
  | inl e => inl e
  | inr a => f a
  end.

Section pages.
(** [json.load] on the bytes of a file, and
    [json.dumps(data, indent=2, ensure_ascii=False).encode('utf-8')]:
    each gives its value or the text of the exception it raises. *)
Context (json_load : list N → pystr + json) (json_encode : json → pystr + list N).

Definition serve_index (w : world) : reply :=
  let index_path := path_join (SCRIPT_DIR w) (str "index.html") in
  if path_exists w index_path then
    match read_file w index_path with
    | inr content => SendIndex content
    | inl e => Unhandled e
    end
  else SendError 404 (str "Not Found").

Definition serve_songs_list (w : world) : reply := SendSongs (get_existing_songs w).

Definition serve_song_detail (w : world) (path : pystr) : reply :=
  let video_id := before (chr "#") (before (chr "?") (replace (str "/song/") [] path)) in
  if bool_decide (video_id = []) || negb (bool_decide (length video_id = 11%nat)) then
    SendError 404 (str "Invalid video ID")
  else
    let raw_path := path_join (RAW_LYRICS_DIR w) (video_id ++ str ".json") in
    let transcribed_path := path_join (TRANSCRIBED_LYRICS_DIR w) (video_id ++ str ".json") in
    let '(file_path, file_type) :=
      if path_exists w transcribed_path then (transcribed_path, str "transcribed")
      else (raw_path, str "raw") in
    if negb (path_exists w file_path) then
      SendError 404 (str "Song file not found for video ID: " ++ video_id)
    else
      match and_then (read_file w file_path) json_load with
      | inl e => SendError 500 (str "Error reading song file: " ++ e)
      | inr song_data => SendPage video_id file_type song_data
      end.

Definition serve_song_data (w : world) (path : pystr) : reply :=
  let video_id := before (chr "#") (before (chr "?") (replace (str "/api/song/") [] path)) in
  if bool_decide (video_id = []) || negb (bool_decide (length video_id = 11%nat)) then
    SendError 404 (str "Invalid video ID")
  else
    let raw_path := path_join (RAW_LYRICS_DIR w) (video_id ++ str ".json") in
    let transcribed_path := path_join (TRANSCRIBED_LYRICS_DIR w) (video_id ++ str ".json") in
    let file_path :=
      if path_exists w transcribed_path then transcribed_path else raw_path in
    if negb (path_exists w file_path) then
      SendError 404 (str "Song file not found for video ID: " ++ video_id)
    else
      match and_then (and_then (read_file w file_path) json_load) json_encode with
      | inl e => SendError 500 (str "Error reading song file: " ++ e)
      | inr body => SendJson body
      end.

Definition do_GET (w : world) (path : pystr) : reply :=
  if bool_decide (path = str "/") || bool_decide (path = str "/index.html") then
    serve_index w
  else if bool_decide (path = str "/api/songs") then serve_songs_list w
  else if startswith path (str "/song/") then serve_song_detail w path
  else if startswith path (str "/api/song/") then serve_song_data w path
  else Static path.

End pages.

(** A checkout with three entries in the raw tier, one of them no
    artifact, and one artifact in the transcribed tier. *)
Definition songs_root : node :=
  dir [ (str "srv", dir [ (str "cg", dir [
    (str "data", dir [
       (str "raw-lyrics", dir [ (vid2 ++ str ".json", File (str "[1]"));
                                (vid1 ++ str ".json", File (str "{}"));
                                (str "notes.txt", File []) ]);
       (str "transcribed-lyrics", dir [ (vid2 ++ str ".json", File (str "[2]")) ]) ]) ]) ]) ].

(** ** Vocabulary of the further properties *)

(** The process ids of the workers the trace shows as started. *)
Definition spawned (tr : list event) : list nat :=
  omap (fun e => match e with Popen _ _ _ pid => Some pid | _ => None end) tr.

(** What a batch leaves in the world before its first launch. *)
Definition batch_header (w : world) (ids : list pystr) : list event :=
  let lf := path_join (LOGS_DIR w) (str "process.log") in
  [ Makedirs (LOGS_DIR w);
    LogWrite lf ([10] ++ rule ++ [10]);
    LogWrite lf (str "[" ++ now w ++ str "] Starting batch: "
                 ++ str_of_nat (length ids) ++ str " video(s): "
                 ++ join (str ", ") ids ++ [10]);
    LogWrite lf (rule ++ [10]) ].

(** What the launch of one worker leaves: its two lines in the log, then
    the process. *)
Definition job_started (w : world) (video_id : pystr) (pid : nat) : list event :=
  let lf := path_join (LOGS_DIR w) (str "process.log") in
  let cmd := build_cmd (resolve_runtime w) video_id in
  [ LogWrite lf ([10] ++ str "[Starting] Video ID: " ++ video_id ++ [10]);
    LogWrite lf (str "Command: " ++ join (str " ") cmd ++ [10]);
    Popen cmd (SCRIPT_DIR w) (worker_node_path w) pid ].

(** An event in its place: the one logs directory, the one log file,
    workers run from the directory of the server with its [NODE_PATH]. *)
Definition in_place (w : world) (e : event) : Prop :=
  match e with
  | Makedirs p => p = LOGS_DIR w
  | LogWrite f _ => f = path_join (LOGS_DIR w) (str "process.log")
  | Popen _ cwd np _ | PopenFailed _ cwd np => cwd = SCRIPT_DIR w ∧ np = worker_node_path w
  end.

(** What may follow the identifier in the path of a song: nothing, a
    query or a fragment. *)
Definition query_or_fragment (tail : pystr) : bool :=
  match tail with
  | [] => true
  | c :: _ => (c =? chr "?") || (c =? chr "#")
  end.

(** The part of a request that can fail after its file was chosen. *)
Definition served (json_load : list N → pystr + json)
    (json_encode : json → pystr + list N) (w : world) (file_path : pystr) : reply :=
  match and_then (and_then (read_file w file_path) json_load) json_encode with
  | inl e => SendError 500 (str "Error reading song file: " ++ e)
  | inr body => SendJson body
  end.

(** The references the extraction loop goes through for a body, when
    the body gets it that far. *)
Definition submitted (body : post_data) : option (list pystr) :=
  match body with
  | Decoded (JObj members) =>
      match iterate (dict_get (str "urls") members (JArr [])) with
      | inr items =>
          match strings items with
          | inr urls => Some urls
          | inl _ => None
          end
      | inl _ => None
      end
  | _ => None
  end.

(** A decoded value that is not a string. *)
Definition not_a_string (v : json) : Prop :=
  match v with JStr _ => False | _ => True end.

(** The command of a worker once the runtime is resolved, for an
    identifier that needs no escaping. *)
Definition worker_command (rt : runtime) (video_id : pystr) : list pystr :=
  if use_nvm_bash rt then
    [ str "bash"; str "-c";
      str "source " ++ default [] (nvm_source rt)
      ++ str " && nvm use 20 > /dev/null 2>&1 && node -r ts-node/register scripts/download-and-transcribe.ts --skip-existing "
      ++ video_id ]
  else
    [ default [] (node_cmd rt); str "-r"; str "ts-node/register";
      str "scripts/download-and-transcribe.ts"; str "--skip-existing"; video_id ].

(** ** The definitions at work *)

Example extract_short_link :
  extract_video_id (str "https://youtu.be/dQw4w9WgXcQ") = Some vid1.
Proof. reflexivity. Qed.

Example extract_watch_url :
  extract_video_id (str "https://www.youtube.com/watch?v=dQw4w9WgXcQ&list=PL1") = Some vid1.
Proof. reflexivity. Qed.

Example extract_rejects_text : extract_video_id (str "not-a-url") = None.
Proof. reflexivity. Qed.

Example extract_rejects_short_id : extract_video_id (str "youtu.be/dQw4w9WgXc") = None.
Proof. reflexivity. Qed.

Example extract_final_newline : extract_video_id (vid1 ++ [10]) = Some vid1.
Proof. reflexivity. Qed.

Example strip_both_ends : strip (str "  a b " ++ [9; 10]) = str "a b".
Proof. reflexivity. Qed.

Example path_join_plain : path_join (str "/srv/cg") (str "data") = str "/srv/cg/data".
Proof. reflexivity. Qed.

Example path_join_absolute : path_join (str "/srv/cg") (str "/etc") = str "/etc".
Proof. reflexivity. Qed.

Example probe_done_root :
  check_existing_videos (mk_world done_root popen_ok) [vid1; vid2]
  = {| raw_lyrics := []; transcribed_lyrics := []; both := [vid1] |}.
Proof. by vm_compute. Qed.

(** The greatest path wins, as strings are ordered: [v20.9.0] is after
    [v20.11.0]. *)
Example runtime_from_nvm :
  resolve_runtime (mk_world nvm_root popen_ok)
  = {| node_cmd := Some (str "/home/u/.nvm/versions/node/v20.9.0/bin/node");
       use_nvm_bash := false; nvm_source := None |}.
Proof. by vm_compute. Qed.

Example runtime_by_bash :
  build_cmd (resolve_runtime (mk_world nvm_only_root popen_ok)) vid1
  = [ str "bash"; str "-c";
      str "source /home/u/.nvm/nvm.sh && nvm use 20 > /dev/null 2>&1 && node -r ts-node/register scripts/download-and-transcribe.ts --skip-existing dQw4w9WgXcQ" ].
Proof. by vm_compute. Qed.

Example runtime_fallback :
  build_cmd (resolve_runtime (mk_world fresh_root popen_ok)) vid1
  = [ str "node"; str "-r"; str "ts-node/register";
      str "scripts/download-and-transcribe.ts"; str "--skip-existing"; vid1 ].
Proof. by vm_compute. Qed.

Example encode_error_one :
  encode_error (str "ab" ++ [55296])
  = Some (str "'utf-8' codec can't encode character '\ud800' in position 2: surrogates not allowed").
Proof. reflexivity. Qed.

Example encode_error_run :
  encode_error ([56320; 57343] ++ str "a")
  = Some (str "'utf-8' codec can't encode characters in position 0-1: surrogates not allowed").
Proof. reflexivity. Qed.

(** A reference that cannot be printed ends the request where it is
    reported, whatever follows it. *)
Example surrogate_reference :
  handle_process (mk_world fresh_root popen_ok) [[55296]; vid1]
  = (failure 500
       (str "'utf-8' codec can't encode character '\ud800' in position 35: surrogates not allowed")
       None, []).
Proof. by vm_compute. Qed.

Example surrogate_before_null :
  handle_request (mk_world fresh_root popen_ok)
    (Decoded (JObj [ (str "urls", JArr [JStr [55296]; JNull]) ]))
  = (failure 500
       (str "'utf-8' codec can't encode character '\ud800' in position 35: surrogates not allowed")
       None, []).
Proof. by vm_compute. Qed.

(** With a directory in the place of the log, the logs directory is
    made and nothing else: no line written, no worker launched. *)
Example log_is_a_directory :
  handle_process (mk_world log_dir_root popen_ok) [vid1]
  = (failure 500
       (str "Failed to start process: [Errno 21] Is a directory: '/srv/cg/logs/process.log'")
       None,
     [Makedirs (str "/srv/cg/logs")]).
Proof. by vm_compute. Qed.

Example logs_is_a_file :
  handle_process (mk_world logs_file_root popen_ok) [vid1]
  = (failure 500 (str "Failed to start process: [Errno 17] File exists: '/srv/cg/logs'") None,
     []).
Proof. by vm_compute. Qed.

(** The home directory read as a pattern: method 1 finds nothing, and
    method 2 takes the first of the paths it knows. *)
Example runtime_bracket_home :
  resolve_runtime bracket_world
  = {| node_cmd := Some (str "/home/u[1]/.nvm/versions/node/v20.11.0/bin/node");
       use_nvm_bash := false; nvm_source := None |}.
Proof. by vm_compute. Qed.

(** ** Properties of the string operations *)

Lemma strip_prefix_app (m s : pystr) : strip_prefix m (m ++ s) = Some s.
Proof.
  induction m as [|a m IH]; simpl; [done|].
  by rewrite N.eqb_refl.
Qed.

Lemma strip_prefix_Some (m s r : pystr) : strip_prefix m s = Some r → s = m ++ r.
Proof.
  revert s. induction m as [|a m IH]; intros [|b s]; simpl; try congruence.
  destruct (N.eqb_spec a b) as [->|]; [|done].
  intros H. by rewrite (IH _ H).
Qed.

Lemma id_group_app (t s : pystr) : valid_token t → id_group (t ++ s) = Some t.
Proof.
  intros [Hlen Hall]. unfold id_group.
  rewrite take_app_length' by done.
  rewrite Hall, bool_decide_true by done. done.
Qed.

Lemma id_group_Some (s g : pystr) :
  id_group s = Some g → valid_token g ∧ g = take 11 s.
Proof.
  unfold id_group. case_bool_decide as Hlen; simpl; [|done].
  destruct (forallb is_id_char (take 11 s)) eqn:Hall; [|done].
  intros [= <-]. by repeat split.
Qed.

Lemma id_group_valid (t : pystr) : valid_token t → id_group t = Some t.
Proof. intros H. rewrite <- (app_nil_r t) at 1. by apply id_group_app. Qed.

Lemma lstrip_head (s : pystr) c r : lstrip s = c :: r → isspace c = false.
Proof.
  induction s as [|a s IH]; simpl; [done|].
  destruct (isspace a) eqn:Ha; [done|]. by intros [= <- _].
Qed.

Lemma rstrip_head c (s : pystr) : isspace c = false → ∃ r, rstrip (c :: s) = c :: r.
Proof.
  intros Hc. simpl. destruct (rstrip s); rewrite ?Hc; eauto.
Qed.

(** What [strip] leaves is empty or starts with a character that is
    not white space. *)
Lemma strip_head (s : pystr) c r : strip s = c :: r → isspace c = false.
Proof.
  unfold strip. destruct (lstrip s) as [|a l] eqn:Hl; [done|].
  pose proof (lstrip_head _ _ _ Hl) as Ha.
  destruct (rstrip_head a l Ha) as [r' Hr]. rewrite Hr. by intros [= <- _].
Qed.

Lemma rstrip_nil (s : pystr) : rstrip s = [] ↔ forallb isspace s = true.
Proof.
  induction s as [|a s IH]; simpl; [done|].
  destruct (rstrip s) as [|b r].
  - destruct (isspace a); simpl; [|split; done].
    split; [intros _; by apply IH|done].
  - split; [done|]. intros [_ H]%andb_prop. by apply IH in H.
Qed.

Lemma lstrip_all_space (s : pystr) : forallb isspace s = true → lstrip s = [].
Proof.
  induction s as [|a s IH]; simpl; [done|].
  intros [-> H]%andb_prop. by apply IH.
Qed.

Lemma forallb_lstrip (s : pystr) :
  forallb isspace (lstrip s) = true → forallb isspace s = true.
Proof.
  induction s as [|a s IH]; simpl; [done|].
  destruct (isspace a) eqn:Ha; simpl; [done|]. by rewrite Ha.
Qed.

(** A string strips to nothing exactly when it is empty or white space
    throughout. *)
Lemma strip_nil (s : pystr) : strip s = [] ↔ forallb isspace s = true.
Proof.
  unfold strip. rewrite rstrip_nil. split.
  - apply forallb_lstrip.
  - intros H. by rewrite lstrip_all_space.
Qed.

(** ** Properties of the encoder *)

Lemma printable_app (a b : pystr) : printable (a ++ b) = printable a && printable b.
Proof. apply forallb_app. Qed.

(** The literals of the source are ASCII. *)
Lemma printable_str (s : string) : printable (str s) = true.
Proof.
  unfold str, printable. induction s as [|a s IH]; [done|].
  cbn [String.list_ascii_of_string]. rewrite fmap_cons. cbn [forallb].
  rewrite IH, andb_true_r. unfold is_surrogate, in_range.
  pose proof (N_ascii_bounded a).
  destruct (N.leb_spec 55296 (N_of_ascii a)); [lia|done].
Qed.

Lemma printable_str_of_nat (n : nat) : printable (str_of_nat n) = true.
Proof. apply printable_str. Qed.

Lemma encode_error_from_None (pos : nat) (s : pystr) :
  encode_error_from pos s = None ↔ printable s = true.
Proof.
  revert pos. induction s as [|c s IH]; intros pos; simpl; [done|].
  destruct (is_surrogate c); simpl; [done|apply IH].
Qed.

(** The encoder raises exactly on the texts with a surrogate. *)
Lemma encode_error_None (s : pystr) : encode_error s = None ↔ printable s = true.
Proof. apply encode_error_from_None. Qed.

Lemma encode_error_printable (s : pystr) : printable s = true → encode_error s = None.
Proof. apply encode_error_None. Qed.

Lemma encode_error_Some (s : pystr) : printable s = false → is_Some (encode_error s).
Proof.
  intros Hs. destruct (encode_error s) eqn:E; [done|].
  apply encode_error_None in E. congruence.
Qed.

Lemma id_char_not_surrogate (c : N) : is_id_char c = true → is_surrogate c = false.
Proof.
  unfold is_id_char, is_surrogate, in_range.
  change (chr "a") with 97. change (chr "z") with 122. change (chr "A") with 65.
  change (chr "Z") with 90. change (chr "0") with 48. change (chr "9") with 57.
  change (chr "_") with 95. change (chr "-") with 45.
  rewrite !orb_true_iff, !andb_true_iff, !N.leb_le, !N.eqb_eq. intros H.
  apply andb_false_iff. left. apply N.leb_gt. lia.
Qed.

Lemma id_chars_printable (t : pystr) : forallb is_id_char t = true → printable t = true.
Proof.
  intros Ht. apply forallb_forall. intros c Hc.
  apply (proj1 (forallb_forall _ _) Ht) in Hc. by rewrite id_char_not_surrogate.
Qed.

Lemma valid_token_printable (t : pystr) : valid_token t → printable t = true.
Proof. intros [_ Ht]. by apply id_chars_printable. Qed.

Lemma printable_replace_char (v : pystr) :
  printable (replace_char 39 quote_escape v) = printable v.
Proof.
  unfold replace_char. induction v as [|x v IH]; [done|].
  change (printable ((if x =? 39 then quote_escape else [x])
                     ++ (v ≫= fun x => if x =? 39 then quote_escape else [x]))
          = printable (x :: v)).
  rewrite printable_app, IH. destruct (N.eqb_spec x 39) as [->|]; [reflexivity|].
  unfold printable. simpl. by rewrite andb_true_r.
Qed.

(** The line of a command in the log can be written exactly when the
    runtime and the identifier can. *)
Lemma printable_command (rt : runtime) (v : pystr) :
  printable (join (str " ") (build_cmd rt v)) = printable_runtime rt && printable v.
Proof.
  unfold build_cmd, printable_runtime. destruct (use_nvm_bash rt).
  - cbn [join]. rewrite !printable_app, !printable_str, !printable_replace_char.
    unfold script_rel_path. rewrite printable_str. simpl.
    by rewrite ?andb_true_r.
  - destruct (node_cmd rt) as [[|c n]|]; cbn [truthy default join];
      rewrite !printable_app, ?printable_str; unfold script_rel_path;
      rewrite ?printable_str; simpl; by rewrite ?andb_true_r.
Qed.

(** ** Properties of the identifier extractor *)

Lemma match_url_here_None (ms : list pystr) (s : pystr) :
  existsb (startswith s) ms = false → match_url_here ms s = None.
Proof.
  induction ms as [|m ms IH]; simpl; [done|].
  unfold startswith at 1. destruct (strip_prefix m s); simpl; [done|]. apply IH.
Qed.

Lemma search_url_unfold (s : pystr) :
  search_url s =
  match match_url_here markers s with
  | Some g => Some g
  | None => match s with [] => None | _ :: s' => search_url s' end
  end.
Proof. by destruct s. Qed.

Lemma search_url_skip (n : nat) (s : pystr) :
  no_marker_before n s = true → search_url s = search_url (drop n s).
Proof.
  revert s. induction n as [|n IH]; intros s; simpl; [done|].
  intros [Hm Hn]%andb_prop. apply negb_true_iff in Hm.
  destruct s as [|c s]; [done|].
  rewrite (search_url_unfold (c :: s)).
  rewrite (match_url_here_None markers (c :: s)) by done. by apply IH.
Qed.

(** At most one alternative fits a position, so the alternative that is
    written there decides the match. *)
Lemma match_url_here_marker (m s r g : pystr) :
  m ∈ markers → strip_prefix m s = Some r → id_group r = Some g →
  match_url_here markers s = Some g.
Proof.
  intros Hm Hs Hg. apply strip_prefix_Some in Hs as ->.
  unfold markers in *. apply list_elem_of_In in Hm.
  destruct Hm as [<-|[<-|[<-|[]]]].
  - cbn [match_url_here]. by rewrite strip_prefix_app, Hg.
  - cbn [match_url_here].
    replace (strip_prefix (str "youtube.com/watch?v=") (str "youtu.be/" ++ r))
      with (@None (list N)) by reflexivity.
    by rewrite strip_prefix_app, Hg.
  - cbn [match_url_here].
    replace (strip_prefix (str "youtube.com/watch?v=") (str "youtube.com/embed/" ++ r))
      with (@None (list N)) by reflexivity.
    replace (strip_prefix (str "youtu.be/") (str "youtube.com/embed/" ++ r))
      with (@None (list N)) by reflexivity.
    by rewrite strip_prefix_app, Hg.
Qed.

(** The search stops at the first marker of the text when the group
    follows it. *)
Lemma search_url_first_marker (n : nat) (x m r g : pystr) :
  no_marker_before n x = true → m ∈ markers →
  strip_prefix m (drop n x) = Some r → id_group r = Some g →
  search_url x = Some g.
Proof.
  intros Hn Hm Hs Hg. rewrite (search_url_skip n x Hn).
  rewrite search_url_unfold.
  by rewrite (match_url_here_marker m (drop n x) r g).
Qed.

Lemma search_url_embedded (pre m t rest : pystr) :
  no_marker_before (length pre) (pre ++ m ++ t ++ rest) = true →
  m ∈ markers → valid_token t →
  search_url (pre ++ m ++ t ++ rest) = Some t.
Proof.
  intros Hn Hm Ht. apply (search_url_first_marker (length pre) _ m (t ++ rest)); try done.
  - by rewrite drop_app_length, strip_prefix_app.
  - by apply id_group_app.
Qed.

Lemma startswith_head_ne a (p : pystr) c (s : pystr) :
  (c =? a) = false → startswith (c :: s) (a :: p) = false.
Proof.
  intros H. unfold startswith. cbn [strip_prefix]. by rewrite N.eqb_sym, H.
Qed.

Lemma marker_here_head c (s : pystr) : (c =? chr "y") = false → marker_here (c :: s) = false.
Proof.
  intros Hc. unfold marker_here, markers. cbn [existsb].
  change (str "youtube.com/watch?v=") with (chr "y" :: str "outube.com/watch?v=").
  change (str "youtu.be/") with (chr "y" :: str "outu.be/").
  change (str "youtube.com/embed/") with (chr "y" :: str "outube.com/embed/").
  by rewrite !startswith_head_ne.
Qed.

Lemma plain_head_no_marker (h s : pystr) :
  plain_head h = true → no_marker_before (length h) (h ++ s) = true.
Proof.
  induction h as [|c h IH]; simpl; [done|].
  intros [Hc Hh]%andb_prop. apply negb_true_iff in Hc.
  rewrite marker_here_head by done. by apply IH.
Qed.

Lemma extract_video_id_url (x g : pystr) :
  search_url x = Some g → extract_video_id x = Some g.
Proof. intros H. unfold extract_video_id, patterns; simpl. by rewrite H. Qed.

Lemma match_url_here_Some (ms : list pystr) (s g : pystr) :
  match_url_here ms s = Some g →
  ∃ m r, m ∈ ms ∧ s = m ++ r ∧ id_group r = Some g.
Proof.
  induction ms as [|m ms IH]; simpl; [done|].
  destruct (strip_prefix m s) as [r|] eqn:Hs.
  - destruct (id_group r) as [g'|] eqn:Hg.
    + intros [= ->]. exists m, r. split; [left|]. by apply strip_prefix_Some in Hs.
    + intros (m' & r' & ? & ? & ?)%IH. exists m', r'. by split; [right|].
  - intros (m' & r' & ? & ? & ?)%IH. exists m', r'. by split; [right|].
Qed.

Lemma search_url_Some (x g : pystr) : search_url x = Some g → valid_token g.
Proof.
  induction x as [|c x IH]; rewrite search_url_unfold.
  - destruct (match_url_here markers []) eqn:E; [|done].
    intros [= ->]. apply match_url_here_Some in E as (m & r & _ & _ & Hg).
    by apply id_group_Some in Hg as [? _].
  - destruct (match_url_here markers (c :: x)) as [g'|] eqn:E; [|done].
    intros [= ->]. apply match_url_here_Some in E as (m & r & _ & _ & Hg).
    by apply id_group_Some in Hg as [? _].
Qed.

Lemma markers_length (m : pystr) : m ∈ markers → (9 ≤ length m)%nat.
Proof.
  unfold markers. rewrite !elem_of_cons, elem_of_nil.
  intros [->|[->|[->|[]]]]; vm_compute; lia.
Qed.

(** A match of the first pattern takes a marker and eleven characters. *)
Lemma search_url_length (x g : pystr) : search_url x = Some g → (20 ≤ length x)%nat.
Proof.
  induction x as [|c x IH]; rewrite search_url_unfold.
  - destruct (match_url_here markers []) eqn:E; [|done].
    apply match_url_here_Some in E as (m & r & Hm%markers_length & Hx & _).
    apply (f_equal length) in Hx. rewrite length_app in Hx. simpl in Hx. lia.
  - destruct (match_url_here markers (c :: x)) as [g'|] eqn:E.
    + intros _. apply match_url_here_Some in E as (m & r & Hm & Hx & Hg).
      apply markers_length in Hm. apply id_group_Some in Hg as [[Hl _] Hg].
      rewrite Hx, length_app. rewrite Hg, length_take in Hl. lia.
    + intros H%IH. simpl. lia.
Qed.

Lemma search_bare_Some (x g : pystr) :
  search_bare x = Some g ↔ valid_token g ∧ (x = g ∨ x = g ++ [10]).
Proof.
  unfold search_bare. split.
  - destruct (id_group x) as [g'|] eqn:Hg; [|done].
    apply id_group_Some in Hg as [Hv ->].
    pose proof (take_drop 11 x) as Hx.
    destruct (drop 11 x) as [|c [|c' d]]; [| |done].
    + intros [= <-]. rewrite app_nil_r in Hx. by split; [|left].
    + destruct (N.eqb_spec c 10) as [->|]; [|done].
      intros [= <-]. by split; [|right].
  - intros [Hv [->| ->]].
    + rewrite id_group_valid by done. destruct Hv as [Hl _].
      by rewrite drop_ge by lia.
    + rewrite id_group_app by done. destruct Hv as [Hl _].
      by rewrite drop_app_length' by done.
Qed.

(** Whatever the extractor accepts is a canonical identifier. *)
Lemma extract_video_id_valid (x g : pystr) :
  extract_video_id x = Some g → valid_token g.
Proof.
  unfold extract_video_id, patterns; simpl.
  destruct (search_url x) as [g'|] eqn:Hu.
  - intros [= <-]. by apply search_url_Some in Hu.
  - destruct (search_bare x) as [g'|] eqn:Hb; [|done].
    intros [= <-]. by apply search_bare_Some in Hb as [? _].
Qed.

Lemma valid_token_no_url (t : pystr) : valid_token t → search_url t = None.
Proof.
  intros [Hl _]. destruct (search_url t) as [g|] eqn:E; [|done].
  apply search_url_length in E. lia.
Qed.

Lemma extract_video_id_bare (t : pystr) : valid_token t → extract_video_id t = Some t.
Proof.
  intros Ht. unfold extract_video_id, patterns; simpl.
  rewrite valid_token_no_url by done.
  assert (search_bare t = Some t) as ->; [|done].
  apply search_bare_Some. by split; [|left].
Qed.

(** ** Properties of the extraction loop *)

Lemma truthy_extract (s g : pystr) : extract_video_id s = Some g → truthy (Some g) = true.
Proof. intros [Hl _]%extract_video_id_valid. by destruct g. Qed.

Lemma collect_spec (acc : list pystr * list pystr) (url : pystr) :
  collect acc url
  = (acc.1 ++ option_list (accepted url), acc.2 ++ option_list (rejected url)).
Proof.
  unfold collect, accepted, rejected. destruct (strip url) as [|c s] eqn:Hs.
  - simpl. rewrite !app_nil_r. by destruct acc.
  - destruct (extract_video_id (c :: s)) as [g|] eqn:Hg.
    + rewrite (truthy_extract _ _ Hg). simpl. by rewrite app_nil_r.
    + simpl. by rewrite app_nil_r.
Qed.

Lemma foldl_collect (urls : list pystr) (acc : list pystr * list pystr) :
  foldl collect acc urls = (acc.1 ++ omap accepted urls, acc.2 ++ omap rejected urls).
Proof.
  revert acc. induction urls as [|u urls IH]; intros acc; simpl.
  - rewrite !app_nil_r. by destruct acc.
  - rewrite IH, collect_spec. simpl. rewrite <- !app_assoc.
    by destruct (accepted u), (rejected u).
Qed.

(** The two lists the loop builds: one entry for every reference that is
    accepted, one for every reference that is rejected, in the order of
    submission. *)
Lemma collect_all_spec (urls : list pystr) :
  collect_all urls = (omap accepted urls, omap rejected urls).
Proof. unfold collect_all. by rewrite foldl_collect. Qed.

Lemma collect_all_valid (urls : list pystr) (v : pystr) :
  v ∈ (collect_all urls).1 → valid_token v.
Proof.
  rewrite collect_all_spec. simpl. rewrite list_elem_of_omap.
  intros (u & _ & Hu). unfold accepted in Hu.
  destruct (strip u); [done|]. by apply extract_video_id_valid in Hu.
Qed.

Lemma reported_line_printable (u : pystr) :
  reported_line u ≫= encode_error = None ↔ printable (strip u) = true.
Proof.
  unfold reported_line. destruct (strip u) as [|c s] eqn:Hs; [done|].
  destruct (extract_video_id (c :: s)) as [g|] eqn:Hg.
  - rewrite (truthy_extract _ _ Hg). cbn [mbind option_bind default from_option id].
    rewrite encode_error_None, !printable_app, !printable_str.
    rewrite (valid_token_printable g) by (by apply extract_video_id_valid in Hg).
    done.
  - cbn [truthy mbind option_bind].
    by rewrite encode_error_None, !printable_app, !printable_str.
Qed.

Lemma collect_step_printable (acc : list pystr * list pystr) (u : pystr) :
  printable (strip u) = true → collect_step acc u = inr (collect acc u).
Proof.
  intros Hu%reported_line_printable. unfold collect_step. by rewrite Hu.
Qed.

Lemma collect_step_inr (acc p : list pystr * list pystr) (u : pystr) :
  collect_step acc u = inr p → p = collect acc u ∧ printable (strip u) = true.
Proof.
  unfold collect_step.
  destruct (reported_line u ≫= encode_error) eqn:E; [done|].
  intros [= <-]. split; [done|]. by apply reported_line_printable.
Qed.

Lemma collect_step_raised (acc : list pystr * list pystr) (u : pystr) :
  printable (strip u) = false → ∃ msg, collect_step acc u = inl msg.
Proof.
  intros Hu. unfold collect_step.
  destruct (reported_line u ≫= encode_error) as [msg|] eqn:E; [by exists msg|].
  apply reported_line_printable in E. congruence.
Qed.

(** A batch whose references can all be printed goes through the loop,
    which builds the two lists of [collect_all]. *)
Lemma collect_loop_printable (acc : list pystr * list pystr) (urls : list pystr) :
  printable_batch urls → collect_loop acc urls = inr (foldl collect acc urls).
Proof.
  revert acc. induction urls as [|u urls IH]; intros acc Hp; [done|].
  cbn [collect_loop foldl]. rewrite collect_step_printable by (apply Hp; by left).
  apply IH. intros u' Hu'. apply Hp. by right.
Qed.

(** The loop ends without an exception for no other batch. *)
Lemma collect_loop_inr (acc p : list pystr * list pystr) (urls : list pystr) :
  collect_loop acc urls = inr p → p = foldl collect acc urls ∧ printable_batch urls.
Proof.
  revert acc. induction urls as [|u urls IH]; intros acc; cbn [collect_loop foldl].
  - intros [= <-]. split; [done|]. by intros u' Hu'%elem_of_nil.
  - destruct (collect_step acc u) as [msg|acc'] eqn:Hs; [done|].
    apply collect_step_inr in Hs as [-> Hu]. intros [-> Hp]%IH.
    split; [done|]. by intros u' [->|Hu']%elem_of_cons; [|apply Hp].
Qed.

(** ** Properties of the existence prober *)

Lemma foldl_probe (w : world) (ids : list pystr) (acc : existing_t) :
  foldl (probe w) acc ids =
  {| raw_lyrics := raw_lyrics acc
       ++ filter (fun v => has_raw w v && negb (has_transcribed w v)) ids;
     transcribed_lyrics := transcribed_lyrics acc
       ++ filter (fun v => negb (has_raw w v) && has_transcribed w v) ids;
     both := both acc
       ++ filter (fun v => has_raw w v && has_transcribed w v) ids |}.
Proof.
  revert acc. induction ids as [|v ids IH]; intros acc; simpl.
  - rewrite !filter_nil, !app_nil_r. by destruct acc.
  - rewrite IH. unfold probe. rewrite !filter_cons.
    destruct (has_raw w v), (has_transcribed w v); simpl;
      repeat case_decide; try done; by rewrite <- ?app_assoc.
Qed.

(** The three buckets are the sublists of the identifiers submitted that
    have the raw artifact only, the transcribed one only, and both. *)
Lemma check_existing_videos_spec (w : world) (ids : list pystr) :
  check_existing_videos w ids =
  {| raw_lyrics := filter (fun v => has_raw w v && negb (has_transcribed w v)) ids;
     transcribed_lyrics := filter (fun v => negb (has_raw w v) && has_transcribed w v) ids;
     both := filter (fun v => has_raw w v && has_transcribed w v) ids |}.
Proof. unfold check_existing_videos. by rewrite foldl_probe. Qed.

Lemma filter_ext_elem {A} (P Q : A → Prop) `{!∀ x, Decision (P x), !∀ x, Decision (Q x)}
    (l : list A) :
  (∀ x, x ∈ l → P x ↔ Q x) → filter P l = filter Q l.
Proof.
  induction l as [|a l IH]; intros Hext; [done|].
  rewrite !filter_cons.
  rewrite IH by (intros x Hx; apply Hext; by right).
  destruct (Hext a ltac:(by left)) as [HPQ HQP]. repeat case_decide; try done; tauto.
Qed.

Lemma filter_none {A} (P : A → Prop) `{!∀ x, Decision (P x)} (l : list A) :
  (∀ x, x ∈ l → ¬ P x) → filter P l = [].
Proof.
  induction l as [|a l IH]; intros Hno; [done|].
  rewrite filter_cons_False by (apply Hno; by left).
  apply IH. intros x Hx. apply Hno. by right.
Qed.

(** The admitted list: the identifiers with no artifact in either tier,
    as often and in the order they stand in the list submitted. *)
Lemma filter_new_spec (w : world) (ids : list pystr) :
  filter_new (check_existing_videos w ids) ids
  = filter (fun v => negb (has_raw w v || has_transcribed w v)) ids.
Proof.
  unfold filter_new. rewrite check_existing_videos_spec; simpl.
  apply filter_ext_elem. intros v Hv.
  rewrite !list_elem_of_filter.
  destruct (has_raw w v), (has_transcribed w v); simpl; tauto.
Qed.

(** ** Properties of paths and of the file system *)

Lemma components_from_slash (acc s t : pystr) :
  components_from acc (s ++ chr "/" :: t)
  = components_from acc s ++ components_from [] t.
Proof.
  revert acc. induction s as [|c s IH]; intros acc; simpl.
  - done.
  - destruct (c =? chr "/"); [|apply IH]. by rewrite IH, app_assoc.
Qed.

Lemma components_from_plain (acc t : pystr) :
  no_slash t = true → components_from acc t = flush (acc ++ t).
Proof.
  revert acc. induction t as [|c t IH]; intros acc; simpl.
  - by rewrite app_nil_r.
  - intros [Hc Ht]%andb_prop. apply negb_true_iff in Hc.
    rewrite Hc, IH by done.
    by rewrite <- app_assoc.
Qed.

Lemma last_Some_app {A} (l : list A) (x : A) : last l = Some x → ∃ l', l = l' ++ [x].
Proof. rewrite last_Some. naive_solver. Qed.

(** Joining a directory and a plain name adds one component. *)
Lemma components_path_join (d name : pystr) :
  name ≠ [] → no_slash name = true →
  components (path_join d name) = components d ++ [name].
Proof.
  intros Hne Hns. unfold path_join, components.
  assert (startswith name (str "/") = false) as ->.
  { destruct name as [|c name]; [done|]. simpl in Hns.
    apply andb_prop in Hns as [Hc _]. apply negb_true_iff in Hc.
    apply (startswith_head_ne (chr "/") [] c name Hc). }
  assert (components_from [] name = [name]) as Hname.
  { rewrite components_from_plain by done. by destruct name. }
  destruct (last d) as [c|] eqn:Hl.
  - apply last_Some_app in Hl as [d' ->].
    destruct (N.eqb_spec c (chr "/")) as [->|Hc].
    + rewrite <- app_assoc. simpl.
      rewrite !components_from_slash, Hname. simpl. by rewrite app_nil_r.
    + change (str "/" ++ name) with (chr "/" :: name).
      by rewrite components_from_slash, Hname.
  - apply last_None in Hl as ->. simpl. by rewrite Hname.
Qed.

Lemma resolve_app (n : node) (p q : list pystr) :
  resolve n (p ++ q) = resolve n p ≫= fun n' => resolve n' q.
Proof.
  revert n. induction p as [|c p IH]; intros n; simpl; [done|].
  destruct n as [|entries]; [done|]. destruct (entries !! c); [apply IH|done].
Qed.

Lemma is_id_char_no_slash (c : N) : is_id_char c = true → negb (c =? chr "/") = true.
Proof.
  destruct (N.eqb_spec c (chr "/")) as [->|]; [|done]. by vm_compute.
Qed.

Lemma artifact_name_plain (v : pystr) :
  valid_token v → v ++ str ".json" ≠ [] ∧ no_slash (v ++ str ".json") = true.
Proof.
  intros [Hl Hall]. split; [by destruct v|].
  unfold no_slash. rewrite forallb_app. apply andb_true_intro. split; [|done].
  apply forallb_forall. intros c Hc. apply is_id_char_no_slash.
  by apply (proj1 (forallb_forall _ _) Hall).
Qed.

(** The artifact of a canonical identifier is an entry of the tier's
    directory: it exists only where the directory does. *)
Lemma artifact_exists (w : world) (d v : pystr) :
  valid_token v →
  path_exists w (path_join d (v ++ str ".json"))
  = bool_decide (is_Some (resolve (root w) (components d)
                            ≫= fun n => resolve n [v ++ str ".json"])).
Proof.
  intros Hv. destruct (artifact_name_plain v Hv) as [Hne Hns].
  unfold path_exists. rewrite components_path_join, resolve_app by done.
  destruct (path_join d (v ++ str ".json")) eqn:Hp; [|done].
  exfalso. apply (f_equal components) in Hp.
  rewrite components_path_join in Hp by done. by destruct (components d).
Qed.

Lemma artifact_missing_dir (w : world) (d v : pystr) :
  valid_token v → resolve (root w) (components d) = None →
  path_exists w (path_join d (v ++ str ".json")) = false.
Proof.
  intros Hv Hd. by rewrite artifact_exists, Hd.
Qed.

(** ** Properties of the dispatcher *)

Lemma launches_app (tr1 tr2 : list event) :
  launches (tr1 ++ tr2) = launches tr1 ++ launches tr2.
Proof. apply omap_app. Qed.

Lemma open_raises_log_error (w : world) (k : nat) (lf : pystr) :
  open_raises w k lf = None → log_error w k = None.
Proof. unfold open_raises. by destruct (resolve _ _) as [[|?]|]. Qed.

Lemma open_raises_other (w : world) (j k : nat) (lf : pystr) :
  open_raises w j lf = None → log_error w k = None → open_raises w k lf = None.
Proof. unfold open_raises. by destruct (resolve _ _) as [[|?]|]. Qed.

Lemma makedirs_raises_None (w : world) (path : pystr) :
  makedirs_raises w path = None → makedirs_error w = None.
Proof. unfold makedirs_raises. by destruct (resolve _ _) as [[|?]|]. Qed.

Section launch_all.
Context (w : world) (rt : runtime) (lf : pystr).

Lemma launch_all_nil (pids : list nat) (tr : list event) :
  launch_all w rt lf [] pids tr = (inr pids, tr).
Proof. done. Qed.

(** One turn of the loop, step by step. *)
Lemma launch_all_cons (v : pystr) (rest : list pystr) (pids : list nat) (tr : list event) :
  launch_all w rt lf (v :: rest) pids tr =
  let cmd := build_cmd rt v in
  let n := (5 + 5 * length pids)%nat in
  let line1 := [10] ++ str "[Starting] Video ID: " ++ v ++ [10] in
  let line2 := str "Command: " ++ join (str " ") cmd ++ [10] in
  let tr' := tr ++ [LogWrite lf line1] ++ [LogWrite lf line2] in
  match open_raises w n lf with
  | Some msg => (inl msg, tr)
  | None =>
  match encode_error line1 with
  | Some msg => (inl msg, tr)
  | None =>
  match log_error w (1 + n) with
  | Some msg => (inl msg, tr)
  | None =>
  match encode_error line2 with
  | Some msg => (inl msg, tr ++ [LogWrite lf line1])
  | None =>
  match log_error w (2 + n) with
  | Some msg => (inl msg, tr ++ [LogWrite lf line1])
  | None =>
  match log_error w (3 + n) with
  | Some msg => (inl msg, tr')
  | None =>
  match open_raises w (4 + n) lf with
  | Some msg => (inl msg, tr')
  | None =>
  match popen w (length pids) cmd with
  | Raised msg => (inl msg, tr' ++ [PopenFailed cmd (SCRIPT_DIR w) (worker_node_path w)])
  | Started pid =>
      match encode_error
              (str "[POST] /api/process - Started process for " ++ v
               ++ str " (PID: " ++ str_of_nat pid ++ str ")") with
      | Some msg => (inl msg, tr' ++ [Popen cmd (SCRIPT_DIR w) (worker_node_path w) pid])
      | None =>
          launch_all w rt lf rest (pids ++ [pid])
            (tr' ++ [Popen cmd (SCRIPT_DIR w) (worker_node_path w) pid])
      end
  end end end end end end end end.
Proof.
  cbn [launch_all]. cbv zeta.
  unfold log_open, log_write, log_flush, py_print, os_popen.
  unfold mbind, M_bind, emit, mret, M_ret, raise.
  destruct (open_raises w (5 + 5 * length pids) lf); [done|].
  destruct (encode_error ([10] ++ str "[Starting] Video ID: " ++ v ++ [10])); [done|].
  destruct (log_error w (1 + (5 + 5 * length pids))); [done|].
  destruct (encode_error (str "Command: " ++ join (str " ") (build_cmd rt v) ++ [10]));
    [done|].
  destruct (log_error w (2 + (5 + 5 * length pids))); [done|].
  destruct (log_error w (3 + (5 + 5 * length pids))); [by rewrite <- !app_assoc|].
  destruct (open_raises w (4 + (5 + 5 * length pids)) lf); [by rewrite <- !app_assoc|].
  destruct (popen w (length pids) (build_cmd rt v)) as [pid|msg]; cbv beta iota;
    [|by rewrite <- !app_assoc].
  destruct (encode_error _); by rewrite <- !app_assoc.
Qed.

(** A turn with nothing in its way but the launch: the log takes what
    is asked of it, and the runtime and the identifier can be written. *)
Lemma launch_all_cons_ready (v : pystr) (rest : list pystr) (pids : list nat)
    (tr : list event) :
  (∀ k, (5 + 5 * length pids ≤ k < 10 + 5 * length pids)%nat → open_raises w k lf = None) →
  printable_runtime rt = true → printable v = true →
  launch_all w rt lf (v :: rest) pids tr =
  let cmd := build_cmd rt v in
  let tr' := tr ++ [LogWrite lf ([10] ++ str "[Starting] Video ID: " ++ v ++ [10])]
                ++ [LogWrite lf (str "Command: " ++ join (str " ") cmd ++ [10])] in
  match popen w (length pids) cmd with
  | Started pid =>
      launch_all w rt lf rest (pids ++ [pid])
        (tr' ++ [Popen cmd (SCRIPT_DIR w) (worker_node_path w) pid])
  | Raised msg =>
      (inl msg, tr' ++ [PopenFailed cmd (SCRIPT_DIR w) (worker_node_path w)])
  end.
Proof.
  intros Ho Hrt Hv.
  assert (∀ k, (5 + 5 * length pids ≤ k < 10 + 5 * length pids)%nat → log_error w k = None)
    as Hl by (intros k Hk; by apply (open_raises_log_error w k lf), Ho).
  rewrite launch_all_cons; cbv zeta.
  rewrite !Ho, !Hl by lia.
  rewrite !encode_error_printable;
    rewrite ?printable_app, ?printable_command, ?printable_str, ?Hrt, ?Hv; try done.
  destruct (popen w (length pids) (build_cmd rt v)) as [pid|msg]; [|done].
  rewrite encode_error_printable; [done|].
  by rewrite !printable_app, !printable_str, printable_str_of_nat, Hv.
Qed.

(** A turn that lets the loop go on had nothing in its way, and its
    launch gave a process. *)
Lemma launch_all_cons_inr (v : pystr) (rest : list pystr) (pids0 pids : list nat)
    (tr tr' : list event) :
  launch_all w rt lf (v :: rest) pids0 tr = (inr pids, tr') →
  (∀ k, (5 + 5 * length pids0 ≤ k < 10 + 5 * length pids0)%nat → open_raises w k lf = None)
  ∧ printable_runtime rt = true ∧ printable v = true
  ∧ ∃ pid, popen w (length pids0) (build_cmd rt v) = Started pid
         ∧ launch_all w rt lf rest (pids0 ++ [pid])
             (tr ++ [LogWrite lf ([10] ++ str "[Starting] Video ID: " ++ v ++ [10])]
                 ++ [LogWrite lf (str "Command: " ++ join (str " ") (build_cmd rt v) ++ [10])]
                 ++ [Popen (build_cmd rt v) (SCRIPT_DIR w) (worker_node_path w) pid])
           = (inr pids, tr').
Proof.
  rewrite launch_all_cons; cbv zeta.
  destruct (open_raises w (5 + 5 * length pids0) lf) eqn:O0; [done|].
  destruct (encode_error ([10] ++ _)) eqn:E1; [done|].
  destruct (log_error w (1 + (5 + 5 * length pids0))) eqn:L1; [done|].
  destruct (encode_error (str "Command: " ++ _)) eqn:E2; [done|].
  destruct (log_error w (2 + (5 + 5 * length pids0))) eqn:L2; [done|].
  destruct (log_error w (3 + (5 + 5 * length pids0))) eqn:L3; [done|].
  destruct (open_raises w (4 + (5 + 5 * length pids0)) lf) eqn:O4; [done|].
  destruct (popen w (length pids0) (build_cmd rt v)) as [pid|msg]; [|done].
  destruct (encode_error (str "[POST] /api/process - Started process for " ++ _)); [done|].
  intros Hl. apply encode_error_None in E2.
  rewrite !printable_app, printable_command, !printable_str in E2.
  apply andb_prop in E2 as [_ [[Hrt Hv]%andb_prop _]%andb_prop].
  split; [|split; [done|split; [done|]]].
  - intros k Hk.
    assert (k = 5 + 5 * length pids0 ∨ k = 1 + (5 + 5 * length pids0)
            ∨ k = 2 + (5 + 5 * length pids0) ∨ k = 3 + (5 + 5 * length pids0)
            ∨ k = 4 + (5 + 5 * length pids0))%nat as [->|[->|[->|[->| ->]]]] by lia;
      try done; by apply (open_raises_other w (5 + 5 * length pids0)).
  - exists pid. split; [done|]. by rewrite <- !app_assoc in *.
Qed.

(** While the launches succeed the loop goes on: one launch per
    identifier, one process id recorded for each. *)
Lemma launch_all_started (pre rest : list pystr) (pids0 pids : list nat) (tr : list event) :
  (∀ k, (k < 5 + 5 * (length pids0 + length pre))%nat → open_raises w k lf = None) →
  printable_runtime rt = true → (∀ v, v ∈ pre → printable v = true) →
  starts w rt (length pids0) pre = Some pids →
  ∃ tr', launch_all w rt lf (pre ++ rest) pids0 tr
         = launch_all w rt lf rest (pids0 ++ pids) (tr ++ tr')
       ∧ launches tr' = build_cmd rt <$> pre
       ∧ length pids = length pre.
Proof.
  revert pids0 pids tr. induction pre as [|v pre IH]; intros pids0 pids tr Ho Hrt Hpre;
    cbn [starts].
  - intros [= <-]. exists []. by rewrite !app_nil_r.
  - destruct (popen w (length pids0) (build_cmd rt v)) as [pid|msg] eqn:Hp; [|done].
    destruct (starts w rt (S (length pids0)) pre) as [pids'|] eqn:Hs; [|done].
    simpl fmap. intros [= <-].
    rewrite <- app_comm_cons, launch_all_cons_ready; cbv zeta;
      [|intros k Hk; apply Ho; simpl length; lia|done|apply Hpre; by left].
    rewrite Hp.
    edestruct (IH (pids0 ++ [pid]) pids') as (tr' & -> & Hl & Hlen).
    { intros k Hk. apply Ho. rewrite length_app in Hk. simpl length in *. lia. }
    { done. }
    { intros v' Hv'. apply Hpre. by right. }
    { rewrite length_app; simpl. by rewrite Nat.add_1_r. }
    eexists. split; [|split].
    + rewrite <- !app_assoc. simpl. reflexivity.
    + simpl. by rewrite Hl.
    + simpl. by rewrite Hlen.
Qed.

Lemma launch_all_ok (ids : list pystr) (pids : list nat) (tr : list event) :
  (∀ k, (k < 5 + 5 * length ids)%nat → open_raises w k lf = None) →
  printable_runtime rt = true → (∀ v, v ∈ ids → printable v = true) →
  starts w rt 0 ids = Some pids →
  ∃ tr', launch_all w rt lf ids [] tr = (inr pids, tr ++ tr')
       ∧ launches tr' = build_cmd rt <$> ids
       ∧ length pids = length ids.
Proof.
  intros Ho Hrt Hids Hs.
  destruct (launch_all_started ids [] [] pids tr Ho Hrt Hids Hs) as (tr' & H & ?).
  exists tr'. rewrite app_nil_r in H. by rewrite H.
Qed.

(** The first launch that raises ends the loop: nothing is attempted for
    the identifiers after it, and the process ids recorded so far are
    dropped with the exception. *)
Lemma launch_all_raised (pre : list pystr) (v : pystr) (post : list pystr)
    (pids : list nat) (msg : pystr) (tr : list event) :
  (∀ k, (k < 10 + 5 * length pre)%nat → open_raises w k lf = None) →
  printable_runtime rt = true → (∀ x, x ∈ pre ++ [v] → printable x = true) →
  starts w rt 0 pre = Some pids →
  popen w (length pre) (build_cmd rt v) = Raised msg →
  ∃ tr', launch_all w rt lf (pre ++ v :: post) [] tr = (inl msg, tr ++ tr')
       ∧ launches tr' = build_cmd rt <$> (pre ++ [v]).
Proof.
  intros Ho Hrt Hpr Hs Hp.
  destruct (launch_all_started pre (v :: post) [] pids tr) as (tr' & -> & Hl & Hlen);
    [intros k Hk; apply Ho; simpl length in *; lia|done
    |intros x Hx; apply Hpr; rewrite elem_of_app; by left|done|].
  rewrite launch_all_cons_ready; cbv zeta;
    [|intros k Hk; apply Ho; simpl length in *; lia|done
     |apply Hpr; rewrite elem_of_app, list_elem_of_singleton; by right].
  simpl length. rewrite Hlen, Hp.
  eexists. split.
  - rewrite <- !app_assoc. reflexivity.
  - rewrite !launches_app, Hl, fmap_app. done.
Qed.

Lemma launch_all_inr (ids : list pystr) (pids0 pids : list nat) (tr tr' : list event) :
  launch_all w rt lf ids pids0 tr = (inr pids, tr') →
  ∃ new, starts w rt (length pids0) ids = Some new
       ∧ pids = pids0 ++ new
       ∧ launches tr' = launches tr ++ (build_cmd rt <$> ids).
Proof.
  revert pids0 tr. induction ids as [|v ids IH]; intros pids0 tr.
  - intros [= <- <-]. exists []. by rewrite !app_nil_r.
  - intros (_ & _ & _ & pid & Hp & Hl)%launch_all_cons_inr. cbn [starts]. rewrite Hp.
    apply IH in Hl as (new & Hs & -> & Hl).
    rewrite length_app, Nat.add_1_r in Hs; simpl in Hs. rewrite Hs.
    exists (pid :: new). split; [done|]. split; [by rewrite <- app_assoc|].
    rewrite Hl, !launches_app. simpl. by rewrite ?app_nil_r, <- ?app_assoc.
Qed.

(** A loop that ends normally found the log ready at every turn. *)
Lemma launch_all_inr_ready (ids : list pystr) (pids0 pids : list nat) (tr tr' : list event) :
  launch_all w rt lf ids pids0 tr = (inr pids, tr') →
  (∀ k, (5 + 5 * length pids0 ≤ k < 5 + 5 * (length pids0 + length ids))%nat →
        open_raises w k lf = None)
  ∧ (ids ≠ [] → printable_runtime rt = true).
Proof.
  revert pids0 tr. induction ids as [|v ids IH]; intros pids0 tr.
  - intros _. split; [|done]. simpl length. intros k Hk. lia.
  - intros (Ho1 & Hrt & _ & pid & _ & Hl)%launch_all_cons_inr.
    apply IH in Hl as [Ho _]. split; [|done].
    intros k Hk. rewrite length_app in Ho. simpl length in *.
    destruct (decide (k < 10 + 5 * length pids0)%nat); [apply Ho1; lia|apply Ho; lia].
Qed.

End launch_all.

(** The resolution of the runtime always ends with a way to run the
    worker: the bash wrapper or a command, [node] when nothing is found. *)
Lemma runtime_always_resolved (w : world) :
  use_nvm_bash (resolve_runtime w) = true ∨ truthy (node_cmd (resolve_runtime w)) = true.
Proof.
  unfold resolve_runtime.
  destruct (truthy (if truthy (max_str (nvm_nodes w)) then _ else _)) eqn:Ht; [by right|].
  destruct (path_exists w _); [by left|by right].
Qed.

Lemma common_paths_not_empty (w : world) (p : pystr) : p ∈ common_paths w → p ≠ [].
Proof.
  unfold common_paths, expanduser. rewrite !elem_of_cons, elem_of_nil.
  intros [->|[->|[->|[->|[->|[->|[]]]]]]]; try done;
    by destruct (rstrip_slash (HOME w)).
Qed.

(** The lines of the resolution are printed, or the first that cannot be
    raises; nothing is done to the world either way. *)
Lemma report_runtime_cases (w : world) (tr : list event) :
  report_runtime w tr = (inr (), tr) ∨ ∃ msg, report_runtime w tr = (inl msg, tr).
Proof.
  unfold report_runtime, mbind, M_bind, py_print, raise, mret, M_ret.
  destruct (nvm_nodes w); [|destruct (encode_error _); [right; by eexists|]];
    (destruct (truthy (max_str _)); [by left|]);
    (destruct (head _); [|by left]);
    (destruct (encode_error _); [right; by eexists|by left]).
Qed.

(** A runtime that can be printed is announced without an exception. *)
Lemma report_runtime_ready (w : world) (tr : list event) :
  printable_runtime (resolve_runtime w) = true → report_runtime w tr = (inr (), tr).
Proof.
  unfold printable_runtime, resolve_runtime, report_runtime.
  destruct (truthy (max_str (nvm_nodes w))) eqn:Ht1.
  - destruct (max_str (nvm_nodes w)) as [[|c m]|]; try done.
    cbn [truthy use_nvm_bash node_cmd default from_option id]. intros Hpr.
    unfold mbind, M_bind, py_print, raise, mret, M_ret.
    rewrite encode_error_printable by (by rewrite printable_app, printable_str).
    by destruct (nvm_nodes w).
  - assert (printable (default [] (max_str (nvm_nodes w))) = true) as H1.
    { by destruct (max_str (nvm_nodes w)) as [[|? ?]|]. }
    destruct (head (filter _ (common_paths w))) as [p|] eqn:Hp.
    + assert (truthy (Some p) = true) as Ht.
      { apply head_Some_elem_of, list_elem_of_filter in Hp as [_ Hp].
        apply common_paths_not_empty in Hp. by destruct p. }
      rewrite Ht. cbn [use_nvm_bash node_cmd default from_option id]. intros Hpr.
      unfold mbind, M_bind, py_print, raise, mret, M_ret.
      rewrite !encode_error_printable by (by rewrite printable_app, printable_str).
      by destruct (nvm_nodes w).
    + intros _. unfold mbind, M_bind, py_print, raise, mret, M_ret.
      rewrite encode_error_printable by (by rewrite printable_app, printable_str).
      by destruct (nvm_nodes w).
Qed.

(** The dispatch block, in terms of its loop. *)
Lemma start_workers_unfold (w : world) (ids : list pystr) :
  start_workers w ids [] =
  let lf := path_join (LOGS_DIR w) (str "process.log") in
  let line := str "[" ++ now w ++ str "] Starting batch: "
              ++ str_of_nat (length ids) ++ str " video(s): "
              ++ join (str ", ") ids ++ [10] in
  match report_runtime w [] with
  | (inl msg, _) => (inl msg, [])
  | (inr _, _) =>
  match makedirs_raises w (LOGS_DIR w) with
  | Some msg => (inl msg, [])
  | None =>
  match open_raises w 0 lf with
  | Some msg => (inl msg, [Makedirs (LOGS_DIR w)])
  | None =>
  match log_error w 1 with
  | Some msg => (inl msg, [Makedirs (LOGS_DIR w)])
  | None =>
  match encode_error line with
  | Some msg => (inl msg, [Makedirs (LOGS_DIR w); LogWrite lf ([10] ++ rule ++ [10])])
  | None =>
  match log_error w 2 with
  | Some msg => (inl msg, [Makedirs (LOGS_DIR w); LogWrite lf ([10] ++ rule ++ [10])])
  | None =>
  match log_error w 3 with
  | Some msg =>
      (inl msg, [Makedirs (LOGS_DIR w); LogWrite lf ([10] ++ rule ++ [10]); LogWrite lf line])
  | None =>
  match log_error w 4 with
  | Some msg => (inl msg, batch_header w ids)
  | None =>
      match launch_all w (resolve_runtime w) lf ids [] (batch_header w ids) with
      | (inl msg, tr) => (inl msg, tr)
      | (inr pids, tr) =>
          match encode_error (str "[POST] /api/process - Log file: " ++ lf
                              ++ str " (appending)") with
          | Some msg => (inl msg, tr)
          | None => (inr (pids, lf), tr)
          end
      end
  end end end end end end end end.
Proof.
  unfold start_workers, batch_header. cbv zeta. unfold mbind at 1, M_bind at 1.
  destruct (report_runtime_cases w []) as [->|[msg ->]]; [|done].
  unfold os_makedirs, log_open, log_write, log_flush, py_print.
  unfold mbind, M_bind, emit, raise, mret, M_ret.
  destruct (makedirs_raises w (LOGS_DIR w)); [done|].
  destruct (open_raises w 0 _); [done|].
  assert (encode_error ([10] ++ rule ++ [10]) = None) as -> by reflexivity.
  destruct (log_error w 1); [done|].
  destruct (encode_error (str "[" ++ now w ++ _)); [done|].
  destruct (log_error w 2); [done|].
  assert (encode_error (rule ++ [10]) = None) as -> by reflexivity.
  destruct (log_error w 3); [done|].
  destruct (log_error w 4); [done|].
  rewrite !app_nil_l. cbn [app].
  destruct (launch_all _ _ _ _ _ _) as [[e|pids] tr]; [done|].
  by destruct (encode_error _).
Qed.

(** The ways the dispatch block can go before and after its loop. *)
Ltac block_cases w :=
  rewrite start_workers_unfold; cbv zeta;
  destruct (report_runtime w []) as [[?|?] ?];
  [|destruct (makedirs_raises w (LOGS_DIR w)) eqn:?;
    [|destruct (open_raises w 0 _) eqn:?;
      [|destruct (log_error w 1) eqn:?;
        [|destruct (encode_error (str "[" ++ now w ++ _)) eqn:?;
          [|destruct (log_error w 2) eqn:?;
            [|destruct (log_error w 3) eqn:?;
              [|destruct (log_error w 4) eqn:?; [|]]]]]]]].

(** A dispatch block that ends normally has created the logs directory
    and started one worker for each identifier. *)
Lemma start_workers_inr (w : world) (ids : list pystr) (pids : list nat)
    (log : pystr) (tr : list event) :
  start_workers w ids [] = (inr (pids, log), tr) →
  makedirs_error w = None
  ∧ starts w (resolve_runtime w) 0 ids = Some pids
  ∧ launches tr = build_cmd (resolve_runtime w) <$> ids
  ∧ log = path_join (LOGS_DIR w) (str "process.log").
Proof.
  block_cases w; try done.
  destruct (launch_all _ _ _ _ _ _) as [[e|pids'] tr'] eqn:Hl; [done|].
  destruct (encode_error (str "[POST] /api/process - Log file: " ++ _)); [done|].
  intros [= <- <- <-]. apply launch_all_inr in Hl as (new & Hs & -> & Hla).
  split; [by eapply makedirs_raises_None|]. by repeat split.
Qed.

(** It also found nothing in the place of the logs directory, the log
    ready every time, and could print what it shows of the world. *)
Lemma start_workers_inr_ready (w : world) (ids : list pystr) (pids : list nat)
    (log : pystr) (tr : list event) :
  ids ≠ [] →
  start_workers w ids [] = (inr (pids, log), tr) →
  makedirs_raises w (LOGS_DIR w) = None
  ∧ log_takes w (5 + 5 * length ids) ∧ console_ready w.
Proof.
  intros Hne. block_cases w; try done.
  destruct (launch_all _ _ _ _ _ _) as [[e|pids'] tr'] eqn:Hl; [done|].
  destruct (encode_error (str "[POST] /api/process - Log file: " ++ _)) eqn:E2; [done|].
  intros _.
  apply launch_all_inr_ready in Hl as [Ho Hrt].
  repeat match goal with
         | H : encode_error _ = None |- _ => apply encode_error_None in H;
             rewrite !printable_app, !printable_str in H;
             apply andb_prop in H as [_ [H _]%andb_prop]
         end.
  split; [done|]. split; [|by repeat split; auto].
  intros k Hk.
  destruct (decide (k < 5)%nat) as [Hk5|Hk5]; [|apply Ho; simpl length in *; lia].
  assert (k = 0 ∨ k = 1 ∨ k = 2 ∨ k = 3 ∨ k = 4)%nat as [->|[->|[->|[->| ->]]]] by lia;
    try done; by apply (open_raises_other w 0%nat).
Qed.

(** With the log ready and the console ready, the block goes as far as
    the launches take it. *)
Lemma start_workers_ready (w : world) (ids : list pystr) :
  makedirs_raises w (LOGS_DIR w) = None → log_takes w 5 →
  printable (now w) = true → printable_runtime (resolve_runtime w) = true →
  (∀ v, v ∈ ids → printable v = true) →
  start_workers w ids [] =
  let lf := path_join (LOGS_DIR w) (str "process.log") in
  match launch_all w (resolve_runtime w) lf ids [] (batch_header w ids) with
  | (inl msg, tr) => (inl msg, tr)
  | (inr pids, tr) =>
      match encode_error (str "[POST] /api/process - Log file: " ++ lf
                          ++ str " (appending)") with
      | Some msg => (inl msg, tr)
      | None => (inr (pids, lf), tr)
      end
  end.
Proof.
  intros Hm Ho Hnow Hrt Hids. rewrite start_workers_unfold. cbv zeta.
  rewrite report_runtime_ready, Hm, (Ho 0%nat) by (done || lia).
  rewrite (open_raises_log_error w 1 _ (Ho 1%nat ltac:(lia))).
  rewrite (open_raises_log_error w 2 _ (Ho 2%nat ltac:(lia))).
  rewrite (open_raises_log_error w 3 _ (Ho 3%nat ltac:(lia))).
  rewrite (open_raises_log_error w 4 _ (Ho 4%nat ltac:(lia))).
  rewrite encode_error_printable; [done|].
  rewrite !printable_app, !printable_str, printable_str_of_nat, Hnow.
  cbn [andb]. rewrite andb_true_r. clear -Hids.
  induction ids as [|v ids IH]; [done|].
  assert (printable v = true) as Hv by (apply Hids; by left).
  assert (printable (join (str ", ") ids) = true) as Hj.
  { apply IH. intros v' Hv'. apply Hids. by right. }
  destruct ids as [|v' ids]; [done|].
  change (printable (v ++ str ", " ++ join (str ", ") (v' :: ids)) = true).
  by rewrite !printable_app, printable_str, Hv, Hj.
Qed.

(** ** The paths through the handler *)

Lemma dispatch_failed_cases (e : pystr) : ∃ msg, dispatch_failed e = failure 500 msg None.
Proof. unfold dispatch_failed. destruct (encode_error _); by eexists. Qed.

Lemma dispatch_failed_printable (e : pystr) :
  printable e = true →
  dispatch_failed e = failure 500 (str "Failed to start process: " ++ error_msg e) None.
Proof.
  intros He. unfold dispatch_failed.
  by rewrite encode_error_printable by (by rewrite printable_app, printable_str).
Qed.

Lemma process_videos_handled (w : world) (urls : list pystr) :
  urls ≠ [] → printable_batch urls →
  handled w urls (process_videos w (recognised urls) (invalid urls)).
Proof.
  intros Hne Hp. unfold process_videos.
  pose proof (handled_no_ids w urls Hne Hp) as Hno.
  pose proof (handled_all_exist w urls Hp) as Hall.
  pose proof (handled_processing w urls) as Hproc.
  pose proof (handled_failed w urls) as Hfail.
  unfold admitted, found in *.
  destruct (recognised urls) as [|v vids]; [by apply Hno|].
  destruct (filter_new _ _) as [|a adm] eqn:Ha; [by apply Hall|].
  destruct (start_workers _ _ _) as [[e|[pids log]] tr] eqn:Hs.
  - by apply Hfail.
  - by apply Hproc.
Qed.

Lemma handle_process_handled (w : world) (urls : list pystr) :
  handled w urls (handle_process w urls).
Proof.
  unfold handle_process. destruct urls as [|u urls]; [by constructor|].
  destruct (collect_loop ([], []) (u :: urls)) as [msg|[vids inv]] eqn:Hl.
  - by apply handled_print_raised.
  - apply collect_loop_inr in Hl as [Hc Hp].
    change (foldl collect ([], []) (u :: urls)) with (collect_all (u :: urls)) in Hc.
    replace vids with (recognised (u :: urls)) by (unfold recognised; by rewrite <- Hc).
    replace inv with (invalid (u :: urls)) by (unfold invalid; by rewrite <- Hc).
    by apply process_videos_handled.
Qed.

(** * The claims *)

(** ** Identifier extraction *)

(** C4. A canonical identifier is extracted as itself from each of the
    shapes that carry it: bare, after [youtube.com/watch?v=], after
    [youtube.com/embed/] and after [youtu.be/], whatever plain head
    (scheme and host) stands before the marker and whatever follows the
    identifier. *)
Theorem extract_same_in_every_shape (t head tail : pystr) :
  valid_token t → plain_head head = true →
  extract_video_id t = Some t
  ∧ extract_video_id (head ++ str "youtube.com/watch?v=" ++ t ++ tail) = extract_video_id t
  ∧ extract_video_id (head ++ str "youtube.com/embed/" ++ t ++ tail) = extract_video_id t
  ∧ extract_video_id (head ++ str "youtu.be/" ++ t ++ tail) = extract_video_id t.
Proof.
  intros Ht Hh.
  assert (∀ m, m ∈ markers → extract_video_id (head ++ m ++ t ++ tail) = Some t) as Hm.
  { intros m Hm. apply extract_video_id_url, search_url_embedded; [|done..].
    by apply plain_head_no_marker. }
  rewrite extract_video_id_bare by done.
  split; [done|]. unfold markers in Hm.
  repeat split; apply Hm; rewrite !elem_of_cons; auto.
Qed.

Lemma extract_same_in_every_shape_witness :
  extract_video_id vid1 = Some vid1
  ∧ extract_video_id (str "https://www." ++ str "youtube.com/watch?v=" ++ vid1 ++ str "&t=42s")
    = extract_video_id vid1
  ∧ extract_video_id (str "https://www." ++ str "youtube.com/embed/" ++ vid1 ++ str "&t=42s")
    = extract_video_id vid1
  ∧ extract_video_id (str "https://www." ++ str "youtu.be/" ++ vid1 ++ str "&t=42s")
    = extract_video_id vid1.
Proof.
  apply (extract_same_in_every_shape vid1 (str "https://www.") (str "&t=42s")).
  - split; reflexivity.
  - reflexivity.
Defined.

(** C10. The first pattern is searched for, not matched against the whole
    reference: when a marker is the first one written in the text and
    eleven characters of the class follow it, these are the identifier
    extracted, whatever stands before the marker and whatever follows
    the eleven characters (more characters of the class included).  The
    bare pattern does not accept such a text; what it accepts is the
    identifier alone, a final newline apart. *)
Theorem url_pattern_unanchored (pre m t rest : pystr) :
  m ∈ markers → valid_token t →
  no_marker_before (length pre) (pre ++ m ++ t ++ rest) = true →
  extract_video_id (pre ++ m ++ t ++ rest) = Some t
  ∧ search_bare (pre ++ m ++ t ++ rest) = None
  ∧ ∀ x g, search_bare x = Some g → x = g ∨ x = g ++ [10].
Proof.
  intros Hm Ht Hpre. split; [|split].
  - by apply extract_video_id_url, search_url_embedded.
  - destruct (search_bare (pre ++ m ++ t ++ rest)) as [g|] eqn:E; [|done].
    apply search_bare_Some in E as [[Hl _] Hx].
    apply markers_length in Hm. destruct Ht as [Hlt _].
    assert (20 ≤ length (pre ++ m ++ t ++ rest))%nat as Hlen.
    { rewrite !length_app. lia. }
    destruct Hx as [Hx|Hx]; rewrite Hx, ?length_app in Hlen; simpl in Hlen; lia.
  - intros x g Hx. by apply search_bare_Some in Hx as [_ ?].
Qed.

Lemma url_pattern_unanchored_witness :
  extract_video_id
    (str "see https://" ++ str "youtu.be/" ++ vid1 ++ str "ABCDEF and more text")
  = Some vid1.
Proof.
  apply (url_pattern_unanchored (str "see https://") (str "youtu.be/") vid1
           (str "ABCDEF and more text")).
  - unfold markers. rewrite !elem_of_cons. auto.
  - split; reflexivity.
  - reflexivity.
Defined.

(** ** Existence classification and admission *)

Lemma filter_new_list_difference (e : existing_t) (ids : list pystr) :
  filter_new e ids
  = list_difference ids (raw_lyrics e ++ transcribed_lyrics e ++ both e).
Proof.
  unfold filter_new. induction ids as [|v ids IH]; [done|].
  rewrite filter_cons, IH. cbn [list_difference].
  destruct (decide_rel elem_of v (raw_lyrics e ++ transcribed_lyrics e ++ both e))
    as [Hin|Hout]; rewrite !elem_of_app in *; case_decide; try done; tauto.
Qed.

(** C5. Every identifier of a batch is in exactly one of the four groups
    (admitted, raw only, transcribed only, both), and the admitted list is
    the list of identifiers less those of the three buckets. *)
Theorem classification_partitions (w : world) (ids : list pystr) (v : pystr) :
  v ∈ ids →
  let e := check_existing_videos w ids in
  let a := filter_new e ids in
  ( ((v ∈ a) ∧ (v ∉ raw_lyrics e) ∧ (v ∉ transcribed_lyrics e) ∧ (v ∉ both e))
    ∨ ((v ∉ a) ∧ (v ∈ raw_lyrics e) ∧ (v ∉ transcribed_lyrics e) ∧ (v ∉ both e))
    ∨ ((v ∉ a) ∧ (v ∉ raw_lyrics e) ∧ (v ∈ transcribed_lyrics e) ∧ (v ∉ both e))
    ∨ ((v ∉ a) ∧ (v ∉ raw_lyrics e) ∧ (v ∉ transcribed_lyrics e) ∧ (v ∈ both e)) )
  ∧ a = list_difference ids (raw_lyrics e ++ transcribed_lyrics e ++ both e).
Proof.
  intros Hv e a. split; [|apply filter_new_list_difference].
  subst a e. rewrite filter_new_spec, check_existing_videos_spec; simpl.
  rewrite !list_elem_of_filter.
  destruct (has_raw w v) eqn:Hr, (has_transcribed w v) eqn:Ht; simpl.
  - right; right; right. tauto.
  - right; left. tauto.
  - right; right; left. tauto.
  - left. tauto.
Qed.

Lemma classification_partitions_witness :
  let w := mk_world done_root popen_ok in
  let e := check_existing_videos w [vid1; vid2] in
  vid1 ∈ both e ∧ filter_new e [vid1; vid2] = [vid2].
Proof.
  pose proof (classification_partitions (mk_world done_root popen_ok) [vid1; vid2] vid1
                ltac:(by left)) as H.
  cbv zeta in *. split; [|by vm_compute].
  destruct H as [[H|[H|[H|H]]] _].
  - destruct H as (_ & _ & _ & H). exfalso. apply H. vm_compute. by left.
  - destruct H as (_ & _ & _ & H). exfalso. apply H. vm_compute. by left.
  - destruct H as (_ & _ & _ & H). exfalso. apply H. vm_compute. by left.
  - tauto.
Defined.

(** C6. The classification of canonical identifiers is a function of the
    existence of the two artifact paths of each and of nothing else: two
    worlds that agree on these paths classify alike, and the group of an
    identifier is read off the two existence tests.  An entry of the
    tier's directory counts as an artifact whatever it holds, an empty
    file included: its identifier is put in a bucket and is not
    admitted.  A tier whose directory does not exist has no artifact:
    its bucket and the bucket of both stay empty, and the prober gives
    its answer all the same. *)
Theorem classification_by_existence_only (w : world) (ids : list pystr) :
  (∀ v, v ∈ ids → valid_token v) →
  let e := check_existing_videos w ids in
  (∀ w', (∀ v, v ∈ ids →
            path_exists w (path_join (RAW_LYRICS_DIR w) (v ++ str ".json"))
            = path_exists w' (path_join (RAW_LYRICS_DIR w') (v ++ str ".json"))
            ∧ path_exists w (path_join (TRANSCRIBED_LYRICS_DIR w) (v ++ str ".json"))
              = path_exists w' (path_join (TRANSCRIBED_LYRICS_DIR w') (v ++ str ".json"))) →
         check_existing_videos w ids = check_existing_videos w' ids)
  ∧ (∀ v, v ∈ ids →
       ((v ∈ both e) ↔ has_raw w v = true ∧ has_transcribed w v = true)
       ∧ ((v ∈ raw_lyrics e) ↔ has_raw w v = true ∧ has_transcribed w v = false)
       ∧ ((v ∈ transcribed_lyrics e) ↔ has_raw w v = false ∧ has_transcribed w v = true)
       ∧ ((v ∈ filter_new e ids) ↔ has_raw w v = false ∧ has_transcribed w v = false))
  ∧ (∀ v entries n, v ∈ ids →
       resolve (root w) (components (RAW_LYRICS_DIR w)) = Some (Dir entries) →
       entries !! (v ++ str ".json") = Some n →
       has_raw w v = true
       ∧ ((v ∈ raw_lyrics e) ∨ (v ∈ both e))
       ∧ (v ∉ filter_new e ids))
  ∧ (∀ v entries n, v ∈ ids →
       resolve (root w) (components (TRANSCRIBED_LYRICS_DIR w)) = Some (Dir entries) →
       entries !! (v ++ str ".json") = Some n →
       has_transcribed w v = true
       ∧ ((v ∈ transcribed_lyrics e) ∨ (v ∈ both e))
       ∧ (v ∉ filter_new e ids))
  ∧ (resolve (root w) (components (RAW_LYRICS_DIR w)) = None →
       raw_lyrics e = [] ∧ both e = []
       ∧ ∀ v, v ∈ ids → has_raw w v = false)
  ∧ (resolve (root w) (components (TRANSCRIBED_LYRICS_DIR w)) = None →
       transcribed_lyrics e = [] ∧ both e = []
       ∧ ∀ v, v ∈ ids → has_transcribed w v = false).
Proof.
  intros Hids e.
  assert (∀ v, v ∈ ids →
       ((v ∈ both e) ↔ has_raw w v = true ∧ has_transcribed w v = true)
       ∧ ((v ∈ raw_lyrics e) ↔ has_raw w v = true ∧ has_transcribed w v = false)
       ∧ ((v ∈ transcribed_lyrics e) ↔ has_raw w v = false ∧ has_transcribed w v = true)
       ∧ ((v ∈ filter_new e ids) ↔ has_raw w v = false ∧ has_transcribed w v = false))
    as Hgroup.
  { intros v Hv. subst e. rewrite filter_new_spec, check_existing_videos_spec; simpl.
    rewrite !list_elem_of_filter.
    destruct (has_raw w v), (has_transcribed w v); simpl; intuition congruence. }
  assert (∀ v entries n d, v ∈ ids →
            resolve (root w) (components d) = Some (Dir entries) →
            entries !! (v ++ str ".json") = Some n →
            path_exists w (path_join d (v ++ str ".json")) = true) as Hentry.
  { intros v entries n d Hv Hd He.
    rewrite artifact_exists, Hd by auto. simpl. rewrite He. by apply bool_decide_true. }
  split; [|split; [done|split; [|split; [|split]]]].
  - intros w' Hsame. subst e. rewrite !check_existing_videos_spec.
    f_equal; apply filter_ext_elem; intros v Hv;
      destruct (Hsame v Hv) as [Hr Ht]; unfold has_raw, has_transcribed;
      by rewrite Hr, Ht.
  - intros v entries n Hv Hd He.
    assert (has_raw w v = true) as Hr by (by apply (Hentry v entries n)).
    destruct (Hgroup v Hv) as (Hb & Hraw & _ & Hnew). rewrite Hb, Hraw, Hnew, Hr.
    destruct (has_transcribed w v); repeat split; auto; by intros [? ?].
  - intros v entries n Hv Hd He.
    assert (has_transcribed w v = true) as Ht by (by apply (Hentry v entries n)).
    destruct (Hgroup v Hv) as (Hb & _ & Htr & Hnew). rewrite Hb, Htr, Hnew, Ht.
    destruct (has_raw w v); repeat split; auto; by intros [? ?].
  - intros Hd.
    assert (∀ v, v ∈ ids → has_raw w v = false) as Hno.
    { intros v Hv. unfold has_raw. by rewrite artifact_missing_dir by auto. }
    subst e. rewrite check_existing_videos_spec; simpl.
    repeat split; [| |done]; apply filter_none; intros v Hv; rewrite Hno by done;
      simpl; tauto.
  - intros Hd.
    assert (∀ v, v ∈ ids → has_transcribed w v = false) as Hno.
    { intros v Hv. unfold has_transcribed.
      by rewrite (artifact_missing_dir w (TRANSCRIBED_LYRICS_DIR w)) by auto. }
    subst e. rewrite check_existing_videos_spec; simpl.
    repeat split; [| |done]; apply filter_none; intros v Hv; rewrite Hno by done;
      rewrite ?andb_false_r; simpl; tauto.
Qed.

(** The raw artifact of [dQw4w9WgXcQ] in [done_root] is an empty file:
    the identifier is in a bucket all the same; and in a checkout with
    no [data] directory nothing is in the raw bucket. *)
Lemma classification_by_existence_only_witness :
  ((vid1 ∈ raw_lyrics (check_existing_videos (mk_world done_root popen_ok) [vid1; vid2]))
   ∨ (vid1 ∈ both (check_existing_videos (mk_world done_root popen_ok) [vid1; vid2])))
  ∧ raw_lyrics (check_existing_videos (mk_world fresh_root popen_ok) [vid1; vid2]) = [].
Proof.
  assert (∀ v, v ∈ [vid1; vid2] → valid_token v) as Hids.
  { intros v [->|[->|[]%elem_of_nil]%elem_of_cons]%elem_of_cons; split; reflexivity. }
  split.
  - pose proof (classification_by_existence_only (mk_world done_root popen_ok)
                  [vid1; vid2] Hids) as H.
    cbv zeta in H. destruct H as (_ & _ & H & _).
    eapply (H vid1 _ (File [])); [by left|reflexivity|reflexivity].
  - pose proof (classification_by_existence_only (mk_world fresh_root popen_ok)
                  [vid1; vid2] Hids) as H.
    cbv zeta in H. destruct H as (_ & _ & _ & _ & H & _).
    apply H. reflexivity.
Defined.

(** ** The invalid references *)

Lemma elem_of_invalid (urls : list pystr) (x : pystr) :
  x ∈ invalid urls ↔ ∃ u, u ∈ urls ∧ x = strip u ∧ x ≠ [] ∧ extract_video_id x = None.
Proof.
  unfold invalid. rewrite collect_all_spec; simpl. rewrite list_elem_of_omap.
  unfold rejected. split.
  - intros (u & Hu & Hr). exists u. split; [done|].
    destruct (strip u) as [|c s] eqn:Hs; [done|].
    destruct (extract_video_id (c :: s)) eqn:He; [done|].
    injection Hr as <-. by rewrite He.
  - intros (u & Hu & -> & Hne & He). exists u. split; [done|].
    destruct (strip u) as [|c s]; [done|]. by rewrite He.
Qed.

(** Whenever a response carries [invalid_urls], it is the list the
    extraction loop built.  The responses of status 400 and 200 to a
    batch that is not empty carry it; a response of status 500 never
    does. *)
Lemma response_invalid_urls (w : world) (urls : list pystr) :
  let r := (handle_process w urls).1 in
  (∀ l, invalid_urls r = Some l → l = invalid urls)
  ∧ (urls ≠ [] → status r ≠ 500%nat → invalid_urls r = Some (invalid urls))
  ∧ (status r = 500%nat → invalid_urls r = None).
Proof.
  cbv zeta. destruct (handle_process_handled w urls) as [| | | | |e tr];
    [| | | | |destruct (dispatch_failed_cases e) as [msg ->]]; simpl;
    repeat split; try done; intros l; by intros [= <-].
Qed.

(** C7, as the code has it. A reference that is not blank and whose
    stripped form matches no shape is rejected and is put on the list
    of invalid references in its stripped form, which is the reference
    itself when it has no white space around it.  The responses of
    status 400 and 200 carry this list; a response of status 500
    carries no list. *)
Theorem rejected_reference_reported_stripped (w : world) (urls : list pystr) (u : pystr) :
  u ∈ urls → strip u ≠ [] → extract_video_id (strip u) = None →
  let r := (handle_process w urls).1 in
  strip u ∈ invalid urls
  ∧ (∀ l, invalid_urls r = Some l → strip u ∈ l)
  ∧ (status r ≠ 500%nat → ∃ l, invalid_urls r = Some l ∧ strip u ∈ l)
  ∧ (status r = 500%nat → invalid_urls r = None).
Proof.
  intros Hu Hne He r.
  assert (strip u ∈ invalid urls) as Hin by (apply elem_of_invalid; eauto).
  destruct (response_invalid_urls w urls) as (Hl & Hs & Hno).
  split; [done|split; [|split; [|done]]].
  - intros l Hr. by rewrite (Hl l Hr).
  - intros Hst. exists (invalid urls). split; [|done]. apply Hs; [|done].
    intros ->. by apply elem_of_nil in Hu.
Qed.

Lemma rejected_reference_reported_stripped_witness :
  ∃ l, invalid_urls (handle_process (mk_world fresh_root popen_ok)
                       [str " not-a-url"; vid1]).1 = Some l
       ∧ str "not-a-url" ∈ l.
Proof.
  refine (proj1 (proj2 (proj2 (rejected_reference_reported_stripped
                   (mk_world fresh_root popen_ok)
                   [str " not-a-url"; vid1] (str " not-a-url") _ _ _))) _).
  - by left.
  - by vm_compute.
  - reflexivity.
  - by vm_compute.
Defined.

(** C7, as the claim has it, fails: a reference with a leading blank
    matches no shape, and the list reports it without the blank, not
    as it was submitted. *)
Lemma padded_reference_not_verbatim :
  extract_video_id (str " not-a-url") = None
  ∧ invalid_urls (handle_process (mk_world fresh_root popen_ok) [str " not-a-url"]).1
    = Some [str "not-a-url"]
  ∧ str " not-a-url" ∉ [str "not-a-url"].
Proof.
  split; [reflexivity|]. split; [by vm_compute|].
  by intros ?%list_elem_of_singleton.
Qed.

Lemma omap_skip_blank {B} (f : list N → option B) (urls : list pystr) :
  (∀ u, forallb isspace u = true → f u = None) →
  omap f urls = omap f (filter (fun u => forallb isspace u = false) urls).
Proof.
  intros Hf. induction urls as [|u urls IH]; [done|].
  rewrite filter_cons. destruct (forallb isspace u) eqn:Hu.
  - rewrite decide_False by done. cbn [omap list_omap]. by rewrite (Hf u Hu).
  - rewrite decide_True by done. cbn [omap list_omap]. by rewrite IH.
Qed.

(** C8, as the claim has it, fails: the reference [not-a-url] is
    malformed and not empty, the identifier next to it is new, and
    there is no [node] to run.  The response has status 500 and no
    [invalid_urls] at all: the malformed reference is reported
    nowhere. *)
Lemma malformed_reference_lost_with_the_batch :
  strip (str "not-a-url") = str "not-a-url"
  ∧ extract_video_id (str "not-a-url") = None
  ∧ status (handle_process (mk_world fresh_root popen_no_node) [str "not-a-url"; vid1]).1
    = 500%nat
  ∧ invalid_urls (handle_process (mk_world fresh_root popen_no_node)
                    [str "not-a-url"; vid1]).1
    = None.
Proof. repeat split; by vm_compute. Qed.

(** C8, as the code has it. Empty and white-space-only references are
    skipped without a trace: the batch gives the same two lists with and
    without them, none of them yields an identifier and none is on the
    list of invalid references.  Every other reference that is rejected
    is on that list, stripped, and the list is reported as
    [invalid_urls] by every response of status 400 or 200 to a batch
    that is not empty; a response of status 500 reports no list. *)
Theorem blank_references_skipped (w : world) (urls : list pystr) :
  let r := (handle_process w urls).1 in
  collect_all urls = collect_all (filter (fun u => forallb isspace u = false) urls)
  ∧ (∀ u, forallb isspace u = true → accepted u = None ∧ (u ∉ invalid urls))
  ∧ (∀ u, u ∈ urls → forallb isspace u = false →
          extract_video_id (strip u) = None → strip u ∈ invalid urls)
  ∧ (urls ≠ [] → status r ≠ 500%nat →
       invalid_urls r = Some (invalid urls)
       ∧ (∀ u, forallb isspace u = true → ∀ l, invalid_urls r = Some l → u ∉ l)
       ∧ (∀ u, u ∈ urls → forallb isspace u = false →
               extract_video_id (strip u) = None →
               ∃ l, invalid_urls r = Some l ∧ strip u ∈ l))
  ∧ (status r = 500%nat → invalid_urls r = None).
Proof.
  intros r.
  assert (∀ u, forallb isspace u = true → u ∉ invalid urls) as Hblank.
  { intros u Hu (u' & _ & -> & Hne & _)%elem_of_invalid.
    destruct (strip u') as [|c s] eqn:Hs; [done|].
    apply strip_head in Hs. simpl in Hu. by rewrite Hs in Hu. }
  assert (∀ u, u ∈ urls → forallb isspace u = false →
            extract_video_id (strip u) = None → strip u ∈ invalid urls) as Hrej.
  { intros u Hu Hnb He. apply elem_of_invalid. exists u. repeat split; try done.
    intros Hs%strip_nil. congruence. }
  destruct (response_invalid_urls w urls) as (Hl & Hs & Hno). fold r in Hl, Hs, Hno.
  split; [|split; [|split; [done|split; [|done]]]].
  - rewrite !collect_all_spec.
    f_equal; apply omap_skip_blank; intros u Hu%strip_nil;
      unfold accepted, rejected; by rewrite Hu.
  - intros u Hu. split; [|by apply Hblank].
    apply strip_nil in Hu. unfold accepted. by rewrite Hu.
  - intros Hne Hst. specialize (Hs Hne Hst). split; [done|split].
    + intros u Hu l Hr. rewrite (Hl l Hr). by apply Hblank.
    + intros u Hu Hnb He. exists (invalid urls). split; [done|by apply Hrej].
Qed.

(** ** Admission and dispatch *)



(** The identifiers admitted are canonical, and can be printed. *)
Lemma admitted_printable (w : world) (urls : list pystr) (v : pystr) :
  v ∈ admitted w urls → printable v = true.
Proof.
  unfold admitted, found. rewrite filter_new_spec.
  intros [_ Hv]%list_elem_of_filter.
  by apply valid_token_printable, (collect_all_valid urls).
Qed.

Lemma start_workers_raised (w : world) (pre : list pystr) (v : pystr)
    (post : list pystr) (pids : list nat) (msg : pystr) :
  makedirs_raises w (LOGS_DIR w) = None → log_takes w (10 + 5 * length pre) →
  printable (now w) = true → printable_runtime (resolve_runtime w) = true →
  (∀ x, x ∈ pre ++ v :: post → printable x = true) →
  starts w (resolve_runtime w) 0 pre = Some pids →
  popen w (length pre) (build_cmd (resolve_runtime w) v) = Raised msg →
  ∃ tr, start_workers w (pre ++ v :: post) [] = (inl msg, tr)
      ∧ launches tr = build_cmd (resolve_runtime w) <$> (pre ++ [v]).
Proof.
  intros Hm Ho Hnow Hrt Hpr Hs Hp.
  rewrite start_workers_ready by (done || intros k Hk; apply Ho; lia). cbv zeta.
  edestruct launch_all_raised as (tr' & -> & Hl); [exact Ho|exact Hrt| |exact Hs|exact Hp|].
  { intros x [Hx|Hx%list_elem_of_singleton]%elem_of_app; apply Hpr; rewrite elem_of_app;
      [by left|right; subst; by left]. }
  eexists. split; [done|]. by rewrite launches_app, Hl.
Qed.

Lemma start_workers_ok (w : world) (ids : list pystr) (pids : list nat) :
  makedirs_raises w (LOGS_DIR w) = None → log_takes w (5 + 5 * length ids) →
  console_ready w → (∀ v, v ∈ ids → printable v = true) →
  starts w (resolve_runtime w) 0 ids = Some pids →
  ∃ tr, start_workers w ids []
        = (inr (pids, path_join (LOGS_DIR w) (str "process.log")), tr).
Proof.
  intros Hm Ho (Hnow & Hrt & Hlf) Hids Hs.
  rewrite start_workers_ready by (done || intros k Hk; apply Ho; lia). cbv zeta.
  edestruct launch_all_ok as (tr' & -> & _); [exact Ho|exact Hrt|exact Hids|exact Hs|].
  rewrite encode_error_printable by (by rewrite !printable_app, !printable_str, Hlf).
  by eexists.
Qed.

(** C2, as the claim has it, fails: of three new identifiers the second
    cannot be started (the system has no process to spare); the worker of the first is
    running, nothing is attempted for the third, whose launch would have
    succeeded, and the response is a failure that carries neither the
    process id of the first nor an entry for the second. *)
Lemma launch_failure_aborts_batch :
  admitted (mk_world fresh_root popen_second_fails) [vid1; vid2; vid3] = [vid1; vid2; vid3]
  ∧ launches (handle_process (mk_world fresh_root popen_second_fails) [vid1; vid2; vid3]).2
    = [ build_cmd (resolve_runtime (mk_world fresh_root popen_second_fails)) vid1;
        build_cmd (resolve_runtime (mk_world fresh_root popen_second_fails)) vid2 ]
  ∧ popen_second_fails 2
      (build_cmd (resolve_runtime (mk_world fresh_root popen_second_fails)) vid3)
    = Started 102
  ∧ status (handle_process (mk_world fresh_root popen_second_fails) [vid1; vid2; vid3]).1
    = 500%nat
  ∧ success (handle_process (mk_world fresh_root popen_second_fails) [vid1; vid2; vid3]).1
    = false
  ∧ process_ids (handle_process (mk_world fresh_root popen_second_fails) [vid1; vid2; vid3]).1
    = None
  ∧ new_video_ids (handle_process (mk_world fresh_root popen_second_fails) [vid1; vid2; vid3]).1
    = None.
Proof. repeat split; by vm_compute. Qed.

(** C2, as the code has it. The launches are not isolated from one
    another.  Take a batch that reaches the dispatch block and a world
    in which the block gets to its launches: the logs directory can be
    made, the log takes what is asked of it, and the time of the batch
    and the runtime can be written.  When the workers of the admitted
    identifiers [pre] were started and the launch for the next one, [v],
    raises, the loop ends there.  The launches attempted are those for
    [pre] and [v], none for the identifiers after [v]; the response has
    status 500 and no list of process ids or of admitted identifiers,
    and it carries the text of the error when that can be printed.
    This holds for [v] in any position. *)
Theorem launch_failure_is_batch_fatal (w : world) (urls pre : list pystr) (v : pystr)
    (post : list pystr) (pids : list nat) (msg : pystr) :
  printable_batch urls →
  admitted w urls = pre ++ v :: post →
  makedirs_raises w (LOGS_DIR w) = None → log_takes w (10 + 5 * length pre) →
  printable (now w) = true → printable_runtime (resolve_runtime w) = true →
  starts w (resolve_runtime w) 0 pre = Some pids →
  popen w (length pre) (build_cmd (resolve_runtime w) v) = Raised msg →
  status (handle_process w urls).1 = 500%nat
  ∧ success (handle_process w urls).1 = false
  ∧ process_ids (handle_process w urls).1 = None
  ∧ new_video_ids (handle_process w urls).1 = None
  ∧ launches (handle_process w urls).2 = build_cmd (resolve_runtime w) <$> (pre ++ [v])
  ∧ (printable msg = true →
     (handle_process w urls).1
     = failure 500 (str "Failed to start process: " ++ error_msg msg) None).
Proof.
  intros Hpb Ha Hm Ho Hnow Hrt Hs Hp.
  destruct (start_workers_raised w pre v post pids msg Hm Ho Hnow Hrt) as (tr & Hsw & Hl);
    [|done|done|].
  { intros x Hx. apply (admitted_printable w urls). by rewrite Ha. }
  rewrite <- Ha in Hsw.
  destruct (handle_process_handled w urls)
    as [Hu|e Hu He|Hu _ Hr|_ Hr Ha'|pids' log tr' _ Hr Ha' Hs'|e tr' _ Hr Ha' Hs'].
  - subst urls. by destruct pre.
  - rewrite collect_loop_printable in He by done. done.
  - unfold admitted in Ha. rewrite Hr in Ha. by destruct pre.
  - rewrite Ha' in Ha. by destruct pre.
  - congruence.
  - rewrite Hs' in Hsw. injection Hsw as -> ->.
    destruct (dispatch_failed_cases msg) as [m Hd]. cbn [fst snd].
    split; [by rewrite Hd|]. split; [by rewrite Hd|]. split; [by rewrite Hd|].
    split; [by rewrite Hd|]. split; [done|]. apply dispatch_failed_printable.
Qed.

Lemma launch_failure_is_batch_fatal_witness :
  (handle_process (mk_world fresh_root popen_second_fails) [vid1; vid2; vid3]).1
  = failure 500
      (str "Failed to start process: [Errno 11] Resource temporarily unavailable") None.
Proof.
  refine (proj2 (proj2 (proj2 (proj2 (proj2 (launch_failure_is_batch_fatal
            (mk_world fresh_root popen_second_fails) [vid1; vid2; vid3]
            [vid1] vid2 [vid3] [100%nat]
            (str "[Errno 11] Resource temporarily unavailable")
            _ _ _ _ _ _ _ _))))) _); try by vm_compute.
  intros u [->|[->|[->|[]%elem_of_nil]%elem_of_cons]%elem_of_cons]%elem_of_cons;
    reflexivity.
Defined.

(** C3, where the code breaks it. The one reference of the batch is a
    short link to [dQw4w9WgXcQ] followed by a lone surrogate, as
    [json.loads] reads it from the escape [\udfff]; the identifier is
    recognised and has its artifacts, so that nothing is admitted.  The
    line that reports the identifier (line 325) cannot be printed: the
    exception ends the request, and the answer is status 500 with the
    text of the exception, without the [skipped] flag the no-op path
    would have set, and sets for the same link without the surrogate.
    No worker is launched. *)
Theorem all_existing_lost_to_a_print :
  skipped (handle_process (mk_world done_root popen_ok) [str "youtu.be/dQw4w9WgXcQ"]).1
  = Some true
  ∧ recognised [str "youtu.be/dQw4w9WgXcQ" ++ [57343]] = [vid1]
  ∧ admitted (mk_world done_root popen_ok) [str "youtu.be/dQw4w9WgXcQ" ++ [57343]] = []
  ∧ handle_process (mk_world done_root popen_ok) [str "youtu.be/dQw4w9WgXcQ" ++ [57343]]
    = (failure 500
         (str "'utf-8' codec can't encode character '\udfff' in position 79: surrogates not allowed")
         None, [])
  ∧ skipped (handle_process (mk_world done_root popen_ok)
               [str "youtu.be/dQw4w9WgXcQ" ++ [57343]]).1 = None.
Proof. repeat split; by vm_compute. Qed.

(** X23. When every identifier recognised in a batch that can be printed
    has an artifact in some tier, the response is the no-op one
    ([skipped] set, status 200, no process ids, no admitted list) and
    nothing is done to the world: no directory made, no line logged, no
    worker launched.  The dispatch block is not run on an empty list,
    which would have left the logs directory behind. *)
Theorem all_existing_is_noop (w : world) (urls : list pystr) :
  printable_batch urls →
  recognised urls ≠ [] →
  (∀ v, v ∈ recognised urls → has_raw w v || has_transcribed w v = true) →
  handle_process w urls
  = (all_exist (recognised urls) (invalid urls) (found w urls), [])
  ∧ skipped (handle_process w urls).1 = Some true
  ∧ status (handle_process w urls).1 = 200%nat
  ∧ process_ids (handle_process w urls).1 = None
  ∧ launches (handle_process w urls).2 = []
  ∧ (makedirs_raises w (LOGS_DIR w) = None →
     printable_runtime (resolve_runtime w) = true →
     (start_workers w [] []).2 ≠ []).
Proof.
  intros Hpb Hr Hall.
  assert (admitted w urls = []) as Ha.
  { unfold admitted, found. rewrite filter_new_spec. apply filter_none.
    intros v Hv. rewrite (Hall v Hv). simpl. tauto. }
  assert (handle_process w urls
          = (all_exist (recognised urls) (invalid urls) (found w urls), [])) as ->.
  { destruct (handle_process_handled w urls) as [Hu|e Hu He| | | |]; try done.
    - subst urls. by destruct Hr.
    - rewrite collect_loop_printable in He by done. done. }
  repeat split. intros Hm Hrt.
  rewrite start_workers_unfold, report_runtime_ready, Hm by done. cbv zeta.
  destruct (open_raises w 0 _); [done|].
  destruct (log_error w 1); [done|].
  destruct (encode_error (str "[" ++ now w ++ _)); [done|].
  destruct (log_error w 2); [done|].
  destruct (log_error w 3); [done|].
  destruct (log_error w 4); [done|].
  rewrite launch_all_nil. by destruct (encode_error _).
Qed.

Lemma all_existing_is_noop_witness :
  skipped (handle_process (mk_world done_root popen_ok) spec_batch).1 = Some true
  ∧ (handle_process (mk_world done_root popen_ok) spec_batch).2 = [].
Proof.
  destruct (all_existing_is_noop (mk_world done_root popen_ok) spec_batch) as (H & Hs & _).
  - intros u [->|[->|[->|[]%elem_of_nil]%elem_of_cons]%elem_of_cons]%elem_of_cons;
      reflexivity.
  - by vm_compute.
  - intros v Hv. change (recognised spec_batch) with [vid1; vid1] in Hv.
    apply elem_of_cons in Hv as [->|Hv]; [reflexivity|].
    apply list_elem_of_singleton in Hv as ->. reflexivity.
  - split; [exact Hs|]. by rewrite H.
Defined.

(** C9, as the claim has it, fails: an identifier is extracted, it is
    new, and there is no [node] to run; the status is 500, neither 400
    nor 200. *)
Lemma launch_failure_gives_500 :
  recognised [vid1] = [vid1]
  ∧ status (handle_process (mk_world fresh_root popen_no_node) [vid1]).1 = 500%nat.
Proof. split; by vm_compute. Qed.

(** C9, as the code has it. For a batch whose references can be printed,
    the status is 400 exactly when no identifier was extracted.
    Otherwise it is 200 when nothing is admitted, and when something
    is, in a world whose time, runtime and log path can be printed: 200
    if the logs directory could be made, the log took everything asked
    of it and every worker was started, 500 if one of these raised.  No
    other status is sent. *)
Theorem status_by_outcome (w : world) (urls : list pystr) :
  printable_batch urls →
  (status (handle_process w urls).1 = 400%nat ↔ recognised urls = [])
  ∧ (recognised urls ≠ [] → admitted w urls = [] →
       status (handle_process w urls).1 = 200%nat)
  ∧ (recognised urls ≠ [] → admitted w urls ≠ [] → console_ready w →
       (status (handle_process w urls).1 = 200%nat
        ↔ makedirs_raises w (LOGS_DIR w) = None
          ∧ log_takes w (5 + 5 * length (admitted w urls))
          ∧ is_Some (starts w (resolve_runtime w) 0 (admitted w urls)))
       ∧ (status (handle_process w urls).1 = 500%nat
          ↔ ¬ (makedirs_raises w (LOGS_DIR w) = None
               ∧ log_takes w (5 + 5 * length (admitted w urls))
               ∧ is_Some (starts w (resolve_runtime w) 0 (admitted w urls)))))
  ∧ (status (handle_process w urls).1 = 400%nat
     ∨ status (handle_process w urls).1 = 200%nat
     ∨ status (handle_process w urls).1 = 500%nat).
Proof.
  intros Hpb.
  destruct (handle_process_handled w urls)
    as [Hu|e Hu He|Hu _ Hr|_ Hr Ha|pids log tr _ Hr Ha Hs|e tr _ Hr Ha Hs].
  - subst urls. repeat split; try done; auto.
  - rewrite collect_loop_printable in He by done. done.
  - repeat split; try done; auto.
  - repeat split; try done; auto.
  - pose proof (start_workers_inr_ready _ _ _ _ _ Ha Hs) as (Hm & Ho & _).
    apply start_workers_inr in Hs as (_ & Hst & _).
    cbn [fst status processing].
    repeat split; try done; auto. intros Hx. destruct Hx. split; [done|]. split; [done|].
    by eexists.
  - destruct (dispatch_failed_cases e) as [m ->]. cbn [fst status failure].
    split; [done|]. split; [done|]. split; [|auto].
    intros _ _ Hc.
    assert (¬ (makedirs_raises w (LOGS_DIR w) = None
               ∧ log_takes w (5 + 5 * length (admitted w urls))
               ∧ is_Some (starts w (resolve_runtime w) 0 (admitted w urls)))) as Hno.
    { intros (Hm & Ho & [pids Hst]).
      destruct (start_workers_ok w _ pids Hm Ho Hc) as (tr' & Hok); [|done|congruence].
      intros v Hv. by apply (admitted_printable w urls). }
    repeat split; try done.
Qed.

Lemma status_by_outcome_witness :
  status (handle_process (mk_world fresh_root popen_ok) spec_batch).1 = 200%nat
  ∧ status (handle_process (mk_world fresh_root popen_no_node) spec_batch).1 = 500%nat.
Proof.
  assert (printable_batch spec_batch) as Hpb.
  { intros u [->|[->|[->|[]%elem_of_nil]%elem_of_cons]%elem_of_cons]%elem_of_cons;
      reflexivity. }
  split.
  - destruct (status_by_outcome (mk_world fresh_root popen_ok) spec_batch Hpb)
      as (_ & _ & H & _).
    apply H; [by vm_compute|by vm_compute|repeat split; reflexivity|].
    split; [reflexivity|]. split; [intros k _; reflexivity|vm_compute; by eexists].
  - destruct (status_by_outcome (mk_world fresh_root popen_no_node) spec_batch Hpb)
      as (_ & _ & H & _).
    apply H; [by vm_compute|by vm_compute|repeat split; reflexivity|].
    intros (_ & _ & [pids Hs]). revert Hs. by vm_compute.
Defined.

(** * Further properties of the server *)

(** ** The rest of the server at work *)

Example songs_of_songs_root :
  get_existing_songs (mk_world songs_root popen_ok) = [vid2; vid1].
Proof. by vm_compute. Qed.

(** Every [.json] goes, not only the last one, and what is left may
    close up to a new one. *)
Example replace_inner_json :
  replace (str ".json") [] (str "a.js.jsonon.json") = str "a.json".
Proof. by vm_compute. Qed.

Example song_data_prefers_transcribed :
  serve_song_data (fun content => inr (JStr content)) (fun _ => inr (str "ok"))
    (mk_world songs_root popen_ok) (str "/api/song/" ++ vid2 ++ str "?x=1#f")
  = SendJson (str "ok").
Proof. by vm_compute. Qed.

Example song_data_short_id :
  serve_song_data (fun _ => inr JNull) (fun _ => inr [])
    (mk_world songs_root popen_ok) (str "/api/song/abc")
  = SendError 404 (str "Invalid video ID").
Proof. by vm_compute. Qed.

Example request_null_urls :
  (handle_request (mk_world fresh_root popen_ok)
     (Decoded (JObj [(str "urls", JNull)]))).1
  = failure 500 (str "object of type 'NoneType' has no len()") None.
Proof. by vm_compute. Qed.

Example request_not_an_object :
  (handle_request (mk_world fresh_root popen_ok) (Decoded (JArr [JStr vid1]))).1
  = failure 500 (str "'list' object has no attribute 'get'") None.
Proof. by vm_compute. Qed.

Example request_keys_of_an_object :
  recognised (default [] (submitted (Decoded (JObj [(str "urls", JObj [(vid1, JInt 1)])]))))
  = [vid1].
Proof. by vm_compute. Qed.

Example get_elsewhere_is_static :
  do_GET (fun _ => inr JNull) (fun _ => inr []) (mk_world fresh_root popen_ok)
    (str "/api/process")
  = Static (str "/api/process").
Proof. by vm_compute. Qed.

(** ** The extractor and the extraction loop *)

Lemma search_url_substring (x g : pystr) :
  search_url x = Some g → ∃ pre post, x = pre ++ g ++ post.
Proof.
  induction x as [|c x IH]; rewrite search_url_unfold.
  - destruct (match_url_here markers []) eqn:E; [|done].
    intros [= ->]. apply match_url_here_Some in E as (m & r & _ & Hx & Hg).
    apply id_group_Some in Hg as [_ ->]. exists m, (drop 11 r).
    by rewrite take_drop.
  - destruct (match_url_here markers (c :: x)) as [g'|] eqn:E.
    + intros [= ->]. apply match_url_here_Some in E as (m & r & _ & Hx & Hg).
      apply id_group_Some in Hg as [_ ->]. exists m, (drop 11 r).
      by rewrite take_drop.
    + intros (pre & post & ->)%IH. by exists (c :: pre), post.
Qed.

(** X1. What the extractor returns is written in the reference: it is a
    piece of the text submitted, eleven characters of the class long,
    and the extractor maps it to itself. *)
Theorem extracted_is_a_token_of_the_text (x g : pystr) :
  extract_video_id x = Some g →
  valid_token g
  ∧ (∃ pre post, x = pre ++ g ++ post)
  ∧ extract_video_id g = Some g.
Proof.
  intros Hx. pose proof (extract_video_id_valid x g Hx) as Hv.
  split; [done|]. split; [|by apply extract_video_id_bare].
  revert Hx. unfold extract_video_id, patterns; simpl.
  destruct (search_url x) as [g'|] eqn:Hu.
  - intros [= <-]. by apply search_url_substring.
  - destruct (search_bare x) as [g'|] eqn:Hb; [|done].
    intros [= <-]. apply search_bare_Some in Hb as [_ [->| ->]].
    + exists [], []. by rewrite app_nil_r.
    + by exists [], [10].
Qed.

Lemma extracted_is_a_token_of_the_text_witness :
  extract_video_id vid1 = Some vid1.
Proof.
  apply (extracted_is_a_token_of_the_text (str "https://youtu.be/dQw4w9WgXcQ?t=1") vid1).
  reflexivity.
Defined.

Lemma extract_video_id_short (x : pystr) :
  (length x < 11)%nat → extract_video_id x = None.
Proof.
  intros Hlen. unfold extract_video_id, patterns; simpl.
  destruct (search_url x) as [g|] eqn:Hu.
  { apply search_url_length in Hu. lia. }
  destruct (search_bare x) as [g|] eqn:Hb; [|done].
  apply search_bare_Some in Hb as [[Hl _] [->| ->]]; rewrite ?length_app in Hlen;
    simpl in Hlen; lia.
Qed.

(** X2. A reference that has something besides white space is counted
    once: in the recognised list or in [invalid_urls], never in both and
    never in neither. *)
Theorem every_reference_counted_once (urls : list pystr) :
  (length (recognised urls) + length (invalid urls)
   = length (filter (fun u => forallb isspace u = false) urls))%nat
  ∧ (∀ x, x ∈ invalid urls → x ∉ recognised urls)
  ∧ (∀ u, u ∈ urls → forallb isspace u = false →
          (strip u ∈ invalid urls) ∨ (∃ g, extract_video_id (strip u) = Some g
                                          ∧ g ∈ recognised urls)).
Proof.
  unfold recognised, invalid. rewrite collect_all_spec; simpl. split; [|split].
  - induction urls as [|u urls IH]; [done|].
    rewrite filter_cons. cbn [omap list_omap].
    unfold accepted at 1, rejected at 1.
    destruct (strip u) as [|c s] eqn:Hs.
    + apply strip_nil in Hs. rewrite decide_False by congruence. exact IH.
    + assert (forallb isspace u = false) as Hn.
      { destruct (forallb isspace u) eqn:E; [|done]. apply strip_nil in E. congruence. }
      rewrite decide_True by done.
      destruct (extract_video_id (c :: s)); simpl; lia.
  - intros x (u & _ & Hr)%list_elem_of_omap (u' & _ & Ha)%list_elem_of_omap.
    unfold rejected in Hr. unfold accepted in Ha.
    destruct (strip u) as [|c s]; [done|].
    destruct (extract_video_id (c :: s)) eqn:He; [done|]. injection Hr as <-.
    destruct (strip u'); [done|].
    apply extract_video_id_valid, extract_video_id_bare in Ha. congruence.
  - intros u Hu Hn. rewrite !list_elem_of_omap.
    destruct (strip u) as [|c s] eqn:Hs.
    { apply strip_nil in Hs. congruence. }
    destruct (extract_video_id (c :: s)) as [g|] eqn:He.
    + right. exists g. split; [done|]. rewrite list_elem_of_omap.
      exists u. split; [done|]. unfold accepted. by rewrite Hs.
    + left. exists u. split; [done|]. unfold rejected. by rewrite Hs, He.
Qed.

Lemma rstrip_cons c (s : pystr) :
  rstrip (c :: s)
  = match rstrip s with
    | [] => if isspace c then [] else [c]
    | r => c :: r
    end.
Proof. done. Qed.

Lemma rstrip_idemp (s : pystr) : rstrip (rstrip s) = rstrip s.
Proof.
  induction s as [|c s IH]; [done|]. rewrite rstrip_cons.
  destruct (rstrip s) as [|b r] eqn:Hr.
  - destruct (isspace c) eqn:Hc; [done|]. simpl. by rewrite Hc.
  - by rewrite rstrip_cons, IH.
Qed.

Lemma lstrip_fixed c (s : pystr) : isspace c = false → lstrip (c :: s) = c :: s.
Proof. intros H. simpl. by rewrite H. Qed.

(** Stripping twice is stripping once. *)
Lemma strip_idemp (s : pystr) : strip (strip s) = strip s.
Proof.
  destruct (strip s) as [|c r] eqn:Hs; [done|].
  pose proof (strip_head _ _ _ Hs) as Hc.
  unfold strip. rewrite lstrip_fixed by done.
  rewrite <- Hs. unfold strip. apply rstrip_idemp.
Qed.

(** X3. Every entry of [invalid_urls] is a reference as the handler read
    it: not empty, with no white space at either end, and rejected by
    the extractor. *)
Theorem invalid_entries_are_stripped (urls : list pystr) (x : pystr) :
  x ∈ invalid urls →
  x ≠ [] ∧ strip x = x ∧ extract_video_id x = None
  ∧ ∃ u, u ∈ urls ∧ x = strip u.
Proof.
  intros (u & Hu & -> & Hne & He)%elem_of_invalid.
  repeat split; try done; [apply strip_idemp|by exists u].
Qed.

Lemma invalid_entries_are_stripped_witness :
  strip (str "not-a-url") = str "not-a-url".
Proof.
  refine (proj1 (proj2 (invalid_entries_are_stripped
            [str "  not-a-url "; vid1] (str "not-a-url") _))).
  by vm_compute; left.
Defined.

(** ** The dispatcher *)

(** The ways a turn of the loop can go: the log refuses one of the five
    things asked of it or a line cannot be written, the line of the
    worker cannot be printed, the loop goes on, or the launch raises. *)
Ltac turn_cases pids0 pid msg :=
  rewrite launch_all_cons; cbv zeta;
  destruct (open_raises _ (5 + 5 * length pids0) _);
  [|destruct (encode_error ([10] ++ _));
    [|destruct (log_error _ (1 + (5 + 5 * length pids0)));
      [|destruct (encode_error (str "Command: " ++ _));
        [|destruct (log_error _ (2 + (5 + 5 * length pids0)));
          [|destruct (log_error _ (3 + (5 + 5 * length pids0)));
            [|destruct (open_raises _ (4 + (5 + 5 * length pids0)) _);
              [|destruct (popen _ (length pids0) _) as [pid|msg];
                [destruct (encode_error
                             (str "[POST] /api/process - Started process for " ++ _))
                |]]]]]]]].

Lemma launch_all_prefix (w : world) (rt : runtime) (lf : pystr) (ids : list pystr)
    (pids0 : list nat) (tr : list event) :
  ∃ k, launches (launch_all w rt lf ids pids0 tr).2
       = launches tr ++ (build_cmd rt <$> take k ids).
Proof.
  revert pids0 tr. induction ids as [|v ids IH]; intros pids0 tr.
  - exists 0%nat. simpl. by rewrite app_nil_r.
  - turn_cases pids0 pid msg; cbn [snd];
      first [ exists 0%nat; rewrite ?launches_app; simpl; by rewrite ?app_nil_r
            | exists 1%nat; rewrite ?launches_app; simpl; by rewrite ?app_nil_r
            | edestruct IH as [k ->]; exists (S k); rewrite !launches_app; simpl;
              by rewrite ?app_nil_r, <- ?app_assoc ].
Qed.

Lemma start_workers_prefix (w : world) (ids : list pystr) :
  launches (start_workers w ids []).2
  `prefix_of` (build_cmd (resolve_runtime w) <$> ids).
Proof.
  block_cases w; try apply prefix_nil.
  match goal with
  | |- context [launch_all ?w' ?rt ?lf ?l ?p ?t] =>
      destruct (launch_all_prefix w' rt lf l p t) as [k Hk];
      replace (launches t) with (@nil (list (list N))) in Hk by reflexivity
  end.
  destruct (launch_all _ _ _ _ _ _) as [[e|pids] tr] eqn:Hl; cbn [snd] in *;
    [|destruct (encode_error (str "[POST] /api/process - Log file: " ++ _)); cbn [snd]];
    rewrite Hk, app_nil_l, fmap_take; apply prefix_take.
Qed.

Lemma launches_prefix_of_admitted (w : world) (urls : list pystr) :
  launches (handle_process w urls).2
  `prefix_of` (build_cmd (resolve_runtime w) <$> admitted w urls).
Proof.
  pose proof (start_workers_prefix w (admitted w urls)) as Hs.
  destruct (handle_process_handled w urls) as [| | | |pids log tr _ _ _ Hw|e tr _ _ _ Hw];
    simpl; try apply prefix_nil; by rewrite Hw in Hs.
Qed.

Lemma launches_from_admitted (w : world) (urls : list pystr) (cmd : list pystr) :
  cmd ∈ launches (handle_process w urls).2 →
  ∃ v, cmd = build_cmd (resolve_runtime w) v ∧ v ∈ recognised urls.
Proof.
  intros Hc. destruct (launches_prefix_of_admitted w urls) as [rest Hp].
  assert (cmd ∈ build_cmd (resolve_runtime w) <$> admitted w urls) as Hin.
  { rewrite Hp, elem_of_app. by left. }
  apply list_elem_of_fmap in Hin as (v & -> & Hv). exists v. split; [done|].
  unfold admitted, found in Hv. rewrite filter_new_spec in Hv.
  by apply list_elem_of_filter in Hv as [_ ?].
Qed.

(** X4. Whatever the outcome, the launches a request makes are the
    commands of the first admitted identifiers, in their order: a worker
    is launched only for a recognised identifier that has no artifact in
    either tier, and never more often than the identifier is admitted. *)
Theorem launches_only_for_admitted (w : world) (urls : list pystr) :
  launches (handle_process w urls).2
  `prefix_of` (build_cmd (resolve_runtime w) <$> admitted w urls)
  ∧ ∀ cmd, cmd ∈ launches (handle_process w urls).2 →
      ∃ v, cmd = build_cmd (resolve_runtime w) v
           ∧ v ∈ recognised urls
           ∧ has_raw w v = false ∧ has_transcribed w v = false.
Proof.
  pose proof (launches_prefix_of_admitted w urls) as Hp.
  split; [done|]. intros cmd Hc.
  destruct Hp as [rest Hp].
  assert (cmd ∈ build_cmd (resolve_runtime w) <$> admitted w urls) as Hin.
  { rewrite Hp, elem_of_app. by left. }
  apply list_elem_of_fmap in Hin as (v & -> & Hv). exists v. split; [done|].
  unfold admitted, found in Hv. rewrite filter_new_spec in Hv.
  apply list_elem_of_filter in Hv as [Hno Hv]. split; [done|].
  by destruct (has_raw w v), (has_transcribed w v).
Qed.

Lemma launch_all_trace (w : world) (ids : list pystr) (pids0 pids : list nat)
    (tr tr' : list event) :
  launch_all w (resolve_runtime w) (path_join (LOGS_DIR w) (str "process.log"))
    ids pids0 tr = (inr pids, tr') →
  ∃ new, pids = pids0 ++ new ∧ length new = length ids
       ∧ tr' = tr ++ mjoin (zip_with (job_started w) ids new).
Proof.
  revert pids0 tr. induction ids as [|v ids IH]; intros pids0 tr.
  - intros [= <- <-]. exists []. by rewrite !app_nil_r.
  - intros (_ & _ & _ & pid & _ & Hl)%launch_all_cons_inr.
    apply IH in Hl as (new & -> & Hlen & ->). exists (pid :: new).
    split; [by rewrite <- app_assoc|]. split; [by simpl; rewrite Hlen|].
    simpl. by rewrite <- !app_assoc.
Qed.

(** X5. When a response reports process ids, the world holds exactly
    this: the logs directory and the header of the batch, written once,
    and then for every admitted identifier in turn its two lines in the
    log followed by its worker.  The ids reported are the ids of these
    workers, in the order they were started. *)
Theorem audit_trail_of_a_batch (w : world) (urls : list pystr) (pids : list nat) :
  process_ids (handle_process w urls).1 = Some pids →
  (handle_process w urls).2
  = batch_header w (admitted w urls)
    ++ mjoin (zip_with (job_started w) (admitted w urls) pids)
  ∧ spawned (handle_process w urls).2 = pids
  ∧ length pids = length (admitted w urls).
Proof.
  destruct (handle_process_handled w urls) as [| | | |pids' log tr _ _ _ Hw|e tr];
    [| | | | |destruct (dispatch_failed_cases e) as [msg ->]]; simpl; try done.
  intros [= ->]. revert Hw. block_cases w; try done.
  destruct (launch_all _ _ _ _ _ _) as [[e|pids'] tr'] eqn:Hl; [done|].
  destruct (encode_error (str "[POST] /api/process - Log file: " ++ _)); [done|].
  intros [= -> _ ->].
  apply launch_all_trace in Hl as (new & -> & Hlen & ->). simpl app.
  split; [done|]. split; [|done].
  change (spawned (batch_header w (admitted w urls)
                   ++ mjoin (zip_with (job_started w) (admitted w urls) new)) = new).
  unfold spawned. rewrite omap_app. simpl.
  clear -Hlen. revert new Hlen. generalize (admitted w urls) as ids.
  induction ids as [|v ids IH]; intros [|pid new]; simpl; try done.
  intros [= Hlen]. f_equal. by apply IH.
Qed.

Lemma audit_trail_of_a_batch_witness :
  spawned (handle_process (mk_world fresh_root popen_ok) spec_batch).2 = [100; 101]%nat.
Proof.
  refine (proj1 (proj2 (audit_trail_of_a_batch (mk_world fresh_root popen_ok) spec_batch
                          [100; 101]%nat _))).
  by vm_compute.
Defined.

Lemma launch_all_in_place (w : world) (ids : list pystr) (pids0 : list nat)
    (tr : list event) :
  Forall (in_place w) tr →
  Forall (in_place w)
    (launch_all w (resolve_runtime w) (path_join (LOGS_DIR w) (str "process.log"))
       ids pids0 tr).2.
Proof.
  revert pids0 tr. induction ids as [|v ids IH]; intros pids0 tr Htr; [done|].
  turn_cases pids0 pid msg; cbn [snd]; try done; try apply IH;
    rewrite !Forall_app; repeat split; try done; by repeat constructor.
Qed.

(** X6. In every outcome, failures included, the handler touches the
    world in these places only: the one logs directory, the one log file
    [logs/process.log] for every line it writes, and workers that run
    in the directory of the server with the [NODE_PATH] prepared for
    them. *)
Theorem effects_stay_in_place (w : world) (urls : list pystr) :
  Forall (in_place w) (handle_process w urls).2.
Proof.
  assert (Forall (in_place w) (start_workers w (admitted w urls) []).2) as Hs.
  { block_cases w; try done; try by repeat constructor.
    pose proof (launch_all_in_place w (admitted w urls) []
                  (batch_header w (admitted w urls))) as Hl.
    unfold batch_header in Hl. cbv zeta in Hl.
    destruct (launch_all _ _ _ _ _ _) as [[e|pids] tr];
      [|destruct (encode_error (str "[POST] /api/process - Log file: " ++ _))];
      simpl in *; apply Hl; by repeat constructor. }
  destruct (handle_process_handled w urls) as [| | | |pids log tr _ _ _ Hw|e tr _ _ _ Hw];
    simpl; try done; by rewrite Hw in Hs.
Qed.

(** X7. The keys of a response go with its status: [success] is set
    exactly with status 200 and [error] exactly without it; the lists of
    identifiers come with status 200 only; [skipped] and [process_ids]
    never come together; and a response of status 400 has done nothing
    to the world. *)
Theorem response_keys_follow_status (w : world) (urls : list pystr) :
  (success (handle_process w urls).1 = true ↔ status (handle_process w urls).1 = 200%nat)
  ∧ (is_Some (error (handle_process w urls).1)
     ↔ status (handle_process w urls).1 ≠ 200%nat)
  ∧ (is_Some (video_ids (handle_process w urls).1)
     ↔ status (handle_process w urls).1 = 200%nat)
  ∧ (is_Some (existing (handle_process w urls).1)
     ↔ status (handle_process w urls).1 = 200%nat)
  ∧ ¬ (is_Some (skipped (handle_process w urls).1)
       ∧ is_Some (process_ids (handle_process w urls).1))
  ∧ (status (handle_process w urls).1 = 400%nat → (handle_process w urls).2 = []).
Proof.
  destruct (handle_process_handled w urls) as [| | | | |e tr];
    [| | | | |destruct (dispatch_failed_cases e) as [msg ->]]; simpl;
    repeat split; try done; try (by intros [? ?]); try (by eexists);
    by intros [[? ?] [? ?]].
Qed.

(** ** The prober and the filter *)

(** X8. The four groups share out the list: the three buckets and the
    admitted list are sublists of the identifiers probed, in their
    order, and their lengths add up to its length, repetitions counted. *)
Theorem groups_share_out_the_list (w : world) (ids : list pystr) :
  (length (filter_new (check_existing_videos w ids) ids)
   + length (raw_lyrics (check_existing_videos w ids))
   + length (transcribed_lyrics (check_existing_videos w ids))
   + length (both (check_existing_videos w ids))
   = length ids)%nat
  ∧ filter_new (check_existing_videos w ids) ids `sublist_of` ids
  ∧ raw_lyrics (check_existing_videos w ids) `sublist_of` ids
  ∧ transcribed_lyrics (check_existing_videos w ids) `sublist_of` ids
  ∧ both (check_existing_videos w ids) `sublist_of` ids.
Proof.
  rewrite filter_new_spec, check_existing_videos_spec; simpl.
  split; [|repeat split; apply sublist_filter].
  induction ids as [|v ids IH]; [done|].
  rewrite !filter_cons.
  destruct (has_raw w v), (has_transcribed w v); simpl;
    repeat case_decide; try done; simpl; lia.
Qed.

(** X9. Artifacts only take away from admission: in a world that has
    every artifact of another, the admitted list is a sublist of the one
    admitted there. *)
Theorem more_artifacts_admit_less (w w' : world) (ids : list pystr) :
  (∀ v, v ∈ ids → has_raw w v = true → has_raw w' v = true) →
  (∀ v, v ∈ ids → has_transcribed w v = true → has_transcribed w' v = true) →
  filter_new (check_existing_videos w' ids) ids
  `sublist_of` filter_new (check_existing_videos w ids) ids.
Proof.
  intros Hr Ht. rewrite !filter_new_spec.
  induction ids as [|v ids IH]; [done|].
  assert (filter (λ v, negb (has_raw w' v || has_transcribed w' v)) ids
          `sublist_of` filter (λ v, negb (has_raw w v || has_transcribed w v)) ids) as IH'.
  { apply IH; intros; [apply Hr|apply Ht]; try done; by right. }
  rewrite !filter_cons.
  pose proof (Hr v ltac:(by left)) as Hr'. pose proof (Ht v ltac:(by left)) as Ht'.
  destruct (has_raw w v), (has_transcribed w v); simpl;
    rewrite ?Hr', ?Ht', ?orb_true_r by done; simpl;
    repeat case_decide; try done; try tauto;
    try first [by apply sublist_skip | by apply sublist_cons].
Qed.

Lemma more_artifacts_admit_less_witness :
  filter_new (check_existing_videos (mk_world done_root popen_ok) [vid1; vid2]) [vid1; vid2]
  `sublist_of`
  filter_new (check_existing_videos (mk_world fresh_root popen_ok) [vid1; vid2]) [vid1; vid2].
Proof.
  apply (more_artifacts_admit_less (mk_world fresh_root popen_ok)
           (mk_world done_root popen_ok) [vid1; vid2]).
  - intros v [->|[->|[]%elem_of_nil]%elem_of_cons]%elem_of_cons; by vm_compute.
  - intros v [->|[->|[]%elem_of_nil]%elem_of_cons]%elem_of_cons; by vm_compute.
Defined.

(** ** The resolution of the runtime *)

Lemma str_leb_total (a b : pystr) : str_leb a b = true ∨ str_leb b a = true.
Proof.
  revert b. induction a as [|x a IH]; intros [|y b]; simpl; auto.
  destruct (N.ltb_spec x y), (N.ltb_spec y x), (N.eqb_spec x y), (N.eqb_spec y x);
    simpl; auto; lia.
Qed.

Lemma str_leb_trans (a b c : pystr) :
  str_leb a b = true → str_leb b c = true → str_leb a c = true.
Proof.
  revert b c. induction a as [|x a IH]; intros [|y b] [|z c]; simpl; try done.
  destruct (N.ltb_spec x y), (N.ltb_spec y z), (N.ltb_spec x z),
    (N.eqb_spec x y), (N.eqb_spec y z), (N.eqb_spec x z); simpl; try done; try lia.
  apply IH.
Qed.

#[export] Instance str_le_total : Total str_le.
Proof. intros a b. apply str_leb_total. Qed.

#[export] Instance str_le_trans : Transitive str_le.
Proof. intros a b c. apply str_leb_trans. Qed.

Lemma max_str_cons (a : pystr) (l : list pystr) :
  max_str (a :: l)
  = match max_str l with
    | None => Some a
    | Some y => if str_leb a y then Some y else Some a
    end.
Proof. done. Qed.

Lemma max_str_None (l : list pystr) : max_str l = None ↔ l = [].
Proof.
  split; [|by intros ->]. destruct l as [|a l]; [done|].
  rewrite max_str_cons. by destruct (max_str l) as [y|]; [destruct (str_leb a y)|].
Qed.

(** [sorted(l)[-1]] is in the list and no string of the list is after it. *)
Lemma max_str_greatest (l : list pystr) (m : pystr) :
  max_str l = Some m → m ∈ l ∧ ∀ x, x ∈ l → str_le x m.
Proof.
  revert m. induction l as [|a l IH]; intros m; [done|].
  rewrite max_str_cons.
  destruct (max_str l) as [y|] eqn:Hy.
  - destruct (IH y eq_refl) as [Hin Hle].
    destruct (str_leb a y) eqn:Hay; intros [= <-].
    + split; [by right|]. intros x [->|Hx]%elem_of_cons; [done|by apply Hle].
    + split; [by left|]. intros x [->|Hx]%elem_of_cons.
      * destruct (str_leb_total a a); done.
      * apply (str_leb_trans x y a); [by apply Hle|].
        destruct (str_leb_total a y); [congruence|done].
  - intros [= <-]. apply max_str_None in Hy as ->.
    split; [by left|]. intros x ->%list_elem_of_singleton.
    destruct (str_leb_total a a); done.
Qed.

Lemma path_join_not_empty (a b : pystr) : b ≠ [] → path_join a b ≠ [].
Proof.
  intros Hb. unfold path_join. destruct (startswith b (str "/")); [done|].
  destruct (last a) as [c|]; [destruct (c =? chr "/")|]; by destruct a, b.
Qed.

Lemma has_magic_rstrip_slash (s : pystr) :
  has_magic s = false → has_magic (rstrip_slash s) = false.
Proof.
  induction s as [|c s IH]; [done|]. cbn [has_magic existsb].
  intros [Hc Hs]%orb_false_elim. specialize (IH Hs).
  cbn [rstrip_slash]. destruct (rstrip_slash s) as [|b r].
  - destruct (c =? chr "/"); [done|]. cbn [has_magic existsb]. by rewrite Hc.
  - cbn [has_magic existsb] in *. by rewrite Hc.
Qed.

(** A home directory with a plain name: what [glob] finds is read off
    the directory of the versions. *)
Lemma nvm_nodes_plain_home (w : world) :
  has_magic (HOME w) = false →
  nvm_nodes w
  = filter (fun p => path_exists w p)
      ((fun name =>
          path_join (path_join (path_join (expanduser w (str "/.nvm/versions/node")) name)
                       (str "bin")) (str "node"))
         <$> filter (fun name => startswith name (str "v20"))
               (listdir w (expanduser w (str "/.nvm/versions/node")))).
Proof.
  intros Hh. unfold nvm_nodes. cbv zeta.
  assert (has_magic (expanduser w (str "/.nvm/versions/node")) = false) as ->; [|done].
  unfold expanduser, has_magic. rewrite existsb_app.
  apply orb_false_intro; [by apply has_magic_rstrip_slash|reflexivity].
Qed.

Lemma elem_of_nvm_nodes (w : world) (p : pystr) :
  has_magic (HOME w) = false →
  p ∈ nvm_nodes w
  ↔ ∃ name, name ∈ listdir w (expanduser w (str "/.nvm/versions/node"))
            ∧ startswith name (str "v20") = true
            ∧ p = path_join (path_join (path_join (expanduser w (str "/.nvm/versions/node"))
                                          name) (str "bin")) (str "node")
            ∧ path_exists w p = true.
Proof.
  intros Hh. rewrite nvm_nodes_plain_home by done.
  rewrite list_elem_of_filter, list_elem_of_fmap. split.
  - intros [Hp (name & -> & [Hn Hl]%list_elem_of_filter)]. exists name.
    repeat split; try done; by apply Is_true_true.
  - intros (name & Hl & Hn & -> & Hp). split; [by apply Is_true_true|].
    exists name. split; [done|]. apply list_elem_of_filter. split; [|done].
    by apply Is_true_true.
Qed.

(** X10. The runtime is resolved in a fixed order.  In a home directory
    whose name has no character of patterns, the Node 20 installations
    of nvm are the entries of [versions/node] whose name starts with
    [v20] and that hold [bin/node].  With one of them, the worker runs
    the greatest of their paths, as strings are ordered, and no shell.
    Without one, it runs the first of the common paths that exists.
    With none of these, it goes through bash and [nvm.sh] when that file
    exists and runs plain [node] when it does not: the resolution never
    fails. *)
Theorem runtime_resolution_order (w : world) :
  has_magic (HOME w) = false →
  (∀ p, p ∈ nvm_nodes w
        ↔ ∃ name, name ∈ listdir w (expanduser w (str "/.nvm/versions/node"))
                  ∧ startswith name (str "v20") = true
                  ∧ p = path_join (path_join (path_join
                                     (expanduser w (str "/.nvm/versions/node")) name)
                                     (str "bin")) (str "node")
                  ∧ path_exists w p = true)
  ∧ (nvm_nodes w ≠ [] →
     ∃ m, node_cmd (resolve_runtime w) = Some m ∧ use_nvm_bash (resolve_runtime w) = false
          ∧ m ∈ nvm_nodes w ∧ ∀ x, x ∈ nvm_nodes w → str_le x m)
  ∧ (nvm_nodes w = [] →
     ∀ p, head (filter (fun p => path_exists w p) (common_paths w)) = Some p →
          node_cmd (resolve_runtime w) = Some p ∧ use_nvm_bash (resolve_runtime w) = false)
  ∧ (nvm_nodes w = [] →
     head (filter (fun p => path_exists w p) (common_paths w)) = None →
     if path_exists w (expanduser w (str "/.nvm/nvm.sh"))
     then use_nvm_bash (resolve_runtime w) = true
          ∧ nvm_source (resolve_runtime w) = Some (expanduser w (str "/.nvm/nvm.sh"))
     else use_nvm_bash (resolve_runtime w) = false
          ∧ node_cmd (resolve_runtime w) = Some (str "node")).
Proof.
  intros Hh. split; [intros p; by apply elem_of_nvm_nodes|].
  unfold resolve_runtime. split; [|split].
  - intros Hne. destruct (max_str (nvm_nodes w)) as [m|] eqn:Hm.
    + destruct (max_str_greatest _ _ Hm) as [Hin Hle].
      assert (m ≠ []) as Hm'.
      { apply elem_of_nvm_nodes in Hin as (name & _ & _ & -> & _); [|done].
        by apply path_join_not_empty. }
      assert (truthy (Some m) = true) as Ht by by destruct m.
      rewrite Ht; cbv iota. rewrite Ht; cbv iota. by exists m.
    + by apply max_str_None in Hm.
  - intros Hn p Hp. rewrite Hn. simpl.
    assert (p ≠ []) as Hne.
    { apply (common_paths_not_empty w). apply head_Some_elem_of in Hp.
      by apply list_elem_of_filter in Hp as [_ ?]. }
    rewrite Hp. assert (truthy (Some p) = true) as -> by by destruct p. done.
  - intros Hn Hp. rewrite Hn. simpl. rewrite Hp. simpl.
    by destruct (path_exists w (expanduser w (str "/.nvm/nvm.sh"))).
Qed.

(** Of the three versions in [nvm_root] the two of Node 20 are found,
    and [v20.9.0] is run: as a string it is after [v20.11.0]. *)
Lemma runtime_resolution_order_witness :
  ∃ m, node_cmd (resolve_runtime (mk_world nvm_root popen_ok)) = Some m
       ∧ use_nvm_bash (resolve_runtime (mk_world nvm_root popen_ok)) = false
       ∧ m ∈ nvm_nodes (mk_world nvm_root popen_ok)
       ∧ ∀ x, x ∈ nvm_nodes (mk_world nvm_root popen_ok) → str_le x m.
Proof.
  apply (proj1 (proj2 (runtime_resolution_order (mk_world nvm_root popen_ok) eq_refl))).
  by vm_compute.
Defined.

(** ** Replacing and cutting strings *)

Lemma strip_prefix_shorter (old s r : pystr) :
  old ≠ [] → strip_prefix old s = Some r → (length r < length s)%nat.
Proof.
  intros Ho ->%strip_prefix_Some. rewrite length_app. destruct old; [done|simpl; lia].
Qed.

Lemma replace_from_S (n : nat) (old new s : pystr) :
  replace_from (S n) old new s
  = match strip_prefix old s with
    | Some r => new ++ replace_from n old new r
    | None => match s with [] => [] | c :: s' => c :: replace_from n old new s' end
    end.
Proof. done. Qed.

Lemma replace_from_enough (old new : pystr) (n m : nat) (s : pystr) :
  old ≠ [] → (length s < n)%nat → (length s < m)%nat →
  replace_from n old new s = replace_from m old new s.
Proof.
  intros Ho. revert m s. induction n as [|n IH]; intros [|m] s Hn Hm; try lia.
  rewrite !replace_from_S. destruct (strip_prefix old s) as [r|] eqn:Hs.
  - apply (strip_prefix_shorter _ _ _ Ho) in Hs. f_equal. apply IH; lia.
  - destruct s as [|c s]; [done|]. f_equal. simpl in *. apply IH; lia.
Qed.

(** One turn of [replace]. *)
Lemma replace_unfold (old new s : pystr) :
  old ≠ [] →
  replace old new s
  = match strip_prefix old s with
    | Some r => new ++ replace old new r
    | None => match s with [] => [] | c :: s' => c :: replace old new s' end
    end.
Proof.
  intros Ho. unfold replace at 1. rewrite replace_from_S.
  destruct (strip_prefix old s) as [r|] eqn:Hs.
  - apply (strip_prefix_shorter _ _ _ Ho) in Hs. f_equal.
    apply replace_from_enough; done || lia.
  - by destruct s as [|c s].
Qed.

Lemma strip_prefix_head_ne a (old : pystr) c (s : pystr) :
  (c =? a) = false → strip_prefix (a :: old) (c :: s) = None.
Proof. intros H. cbn [strip_prefix]. by rewrite N.eqb_sym, H. Qed.

(** Characters that do not start an occurrence are copied. *)
Lemma replace_copy a (old new v t : pystr) :
  forallb (fun c => negb (c =? a)) v = true →
  replace (a :: old) new (v ++ t) = v ++ replace (a :: old) new t.
Proof.
  induction v as [|c v IH]; [done|]. simpl.
  intros [Hc Hv]%andb_prop. apply negb_true_iff in Hc.
  rewrite replace_unfold by done.
  rewrite (strip_prefix_head_ne a old c (v ++ t) Hc). by rewrite IH.
Qed.

Lemma before_app c (v t : pystr) :
  forallb (fun x => negb (x =? c)) v = true → before c (v ++ t) = v ++ before c t.
Proof.
  induction v as [|x v IH]; [done|]. simpl.
  intros [Hx Hv]%andb_prop. apply negb_true_iff in Hx. by rewrite Hx, IH.
Qed.

Lemma id_chars_avoid (c : N) (v : pystr) :
  is_id_char c = false → forallb is_id_char v = true →
  forallb (fun x => negb (x =? c)) v = true.
Proof.
  intros Hc Hv. apply forallb_forall. intros x Hx.
  apply (proj1 (forallb_forall _ _) Hv) in Hx.
  destruct (N.eqb_spec x c) as [->|]; [congruence|done].
Qed.

(** ** The list of songs *)

Lemma path_exists_resolve (w : world) (p : pystr) :
  p ≠ [] → path_exists w p = bool_decide (is_Some (resolve (root w) (components p))).
Proof. by destruct p. Qed.

Lemma elem_of_listdir (w : world) (d file : pystr) :
  file ∈ listdir w d
  ↔ ∃ entries, resolve (root w) (components d) = Some (Dir entries)
               ∧ is_Some (entries !! file).
Proof.
  unfold listdir. destruct (resolve (root w) (components d)) as [[content|entries]|].
  - rewrite elem_of_nil. split; [done|]. by intros (? & ? & _).
  - rewrite list_elem_of_fmap. split.
    + intros ([k n] & -> & Hk%elem_of_map_to_list). exists entries. split; [done|by exists n].
    + intros (? & [= <-] & [n Hn]). exists (file, n). split; [done|].
      by apply elem_of_map_to_list.
  - rewrite elem_of_nil. split; [done|]. by intros (? & ? & _).
Qed.

Lemma raw_lyrics_dir_not_empty (w : world) : RAW_LYRICS_DIR w ≠ [].
Proof. by apply path_join_not_empty. Qed.

Lemma elem_of_songs (w : world) (x : pystr) :
  x ∈ get_existing_songs w
  ↔ ∃ file, file ∈ listdir w (RAW_LYRICS_DIR w)
            ∧ endswith file (str ".json") = true
            ∧ x = replace (str ".json") [] file.
Proof.
  unfold get_existing_songs, sorted.
  rewrite path_exists_resolve by apply raw_lyrics_dir_not_empty.
  case_bool_decide as Hex.
  - rewrite merge_sort_Permutation, list_elem_of_fmap. split.
    + intros (file & -> & [He Hf]%list_elem_of_filter). exists file.
      split; [done|]. split; [by destruct (endswith file (str ".json"))|done].
    + intros (file & Hf & He & ->). exists file. split; [done|].
      apply list_elem_of_filter. by rewrite He.
  - rewrite elem_of_nil. split; [done|].
    intros (file & (entries & Hr & _)%elem_of_listdir & _). destruct Hex. by rewrite Hr.
Qed.

(** X11. The list of songs is in ascending order of strings.  It has a
    name exactly for the entries of the raw tier's directory that end in
    [.json], each with its [.json] taken out, and it is empty when the
    directory does not exist or is a file. *)
Theorem songs_sorted_from_json_entries (w : world) :
  StronglySorted str_le (get_existing_songs w)
  ∧ (∀ x, x ∈ get_existing_songs w
          ↔ ∃ entries file,
              resolve (root w) (components (RAW_LYRICS_DIR w)) = Some (Dir entries)
              ∧ is_Some (entries !! file)
              ∧ endswith file (str ".json") = true
              ∧ x = replace (str ".json") [] file)
  ∧ ((∀ entries, resolve (root w) (components (RAW_LYRICS_DIR w)) ≠ Some (Dir entries))
     → get_existing_songs w = []).
Proof.
  assert (∀ x, x ∈ get_existing_songs w
          ↔ ∃ entries file,
              resolve (root w) (components (RAW_LYRICS_DIR w)) = Some (Dir entries)
              ∧ is_Some (entries !! file)
              ∧ endswith file (str ".json") = true
              ∧ x = replace (str ".json") [] file) as Hel.
  { intros x. rewrite elem_of_songs. split.
    - intros (file & (entries & Hr & Hf)%elem_of_listdir & He & ->). by exists entries, file.
    - intros (entries & file & Hr & Hf & He & ->). exists file.
      split; [|done]. apply elem_of_listdir. by exists entries. }
  split; [|split; [done|]].
  - unfold get_existing_songs, sorted. destruct (path_exists w _); [|constructor].
    apply (StronglySorted_merge_sort str_le).
  - intros Hno. apply elem_of_nil_inv. intros x (entries & ? & Hr & _)%Hel.
    by apply Hno in Hr.
Qed.

(** X12. The list of songs shows what the prober finds in the raw tier:
    a canonical identifier with a raw artifact is in the list that
    [GET /api/songs] answers with. *)
Theorem songs_list_shows_raw_artifacts (json_load : list N → pystr + json)
    (json_encode : json → pystr + list N) (w : world) (v : pystr) :
  valid_token v → has_raw w v = true →
  do_GET json_load json_encode w (str "/api/songs") = SendSongs (get_existing_songs w)
  ∧ v ∈ get_existing_songs w.
Proof.
  intros Hv Hr. split; [done|]. apply elem_of_songs. exists (v ++ str ".json").
  unfold has_raw in Hr. rewrite artifact_exists in Hr by done.
  apply bool_decide_eq_true in Hr as [n Hn].
  destruct (resolve (root w) (components (RAW_LYRICS_DIR w))) as [[|entries]|] eqn:Hd;
    try done.
  simpl in Hn. split; [|split].
  - apply elem_of_listdir. exists entries. split; [done|].
    destruct (entries !! (v ++ str ".json")); [by eexists|done].
  - apply bool_decide_eq_true. by exists v.
  - destruct Hv as [_ Hv].
    change (str ".json") with (chr "." :: str "json") at 1.
    rewrite replace_copy by (by apply id_chars_avoid).
    by rewrite app_nil_r.
Qed.

Lemma songs_list_shows_raw_artifacts_witness :
  vid1 ∈ get_existing_songs (mk_world songs_root popen_ok).
Proof.
  refine (proj2 (songs_list_shows_raw_artifacts (fun _ => inl []) (fun _ => inl [])
                   (mk_world songs_root popen_ok) vid1 _ _)).
  - split; reflexivity.
  - by vm_compute.
Defined.

(** ** The pages of a song *)

(** The identifier read from the path of a song. *)
Lemma video_id_of_path (prefix v tail : pystr) :
  (∃ rest, prefix = chr "/" :: rest) →
  valid_token v → query_or_fragment tail = true →
  before (chr "#") (before (chr "?") (replace prefix [] (prefix ++ v ++ tail))) = v.
Proof.
  intros [rest ->] [_ Hv] Ht.
  rewrite replace_unfold, strip_prefix_app by done. rewrite app_nil_l.
  rewrite replace_copy by (by apply id_chars_avoid).
  destruct tail as [|c tail].
  - rewrite app_nil_r.
    rewrite <- (app_nil_r v), !before_app by (by apply id_chars_avoid).
    by rewrite !app_nil_r.
  - simpl in Ht. rewrite replace_unfold by done.
    destruct (N.eqb_spec c (chr "?")) as [->|Hq].
    + rewrite strip_prefix_head_ne by done.
      rewrite before_app by (by apply id_chars_avoid). simpl.
      rewrite <- (app_nil_r (v ++ [])), <- app_assoc, before_app by (by apply id_chars_avoid).
      by rewrite !app_nil_r.
    + destruct (N.eqb_spec c (chr "#")) as [->|]; [|done].
      rewrite strip_prefix_head_ne by done.
      rewrite before_app by (by apply id_chars_avoid). simpl.
      rewrite before_app by (by apply id_chars_avoid). simpl.
      by rewrite app_nil_r.
Qed.

(** With the identifier read, what is left of [serve_song_data]. *)
Lemma serve_song_data_token (json_load : list N → pystr + json)
    (json_encode : json → pystr + list N) (w : world) (v tail : pystr) :
  valid_token v → query_or_fragment tail = true →
  serve_song_data json_load json_encode w (str "/api/song/" ++ v ++ tail)
  = let raw_path := path_join (RAW_LYRICS_DIR w) (v ++ str ".json") in
    let transcribed_path := path_join (TRANSCRIBED_LYRICS_DIR w) (v ++ str ".json") in
    let file_path :=
      if path_exists w transcribed_path then transcribed_path else raw_path in
    if negb (path_exists w file_path) then
      SendError 404 (str "Song file not found for video ID: " ++ v)
    else served json_load json_encode w file_path.
Proof.
  intros Hv Ht. unfold serve_song_data.
  rewrite (video_id_of_path (str "/api/song/") v tail) by (done || by eexists).
  cbv zeta. destruct Hv as [Hl Hv].
  rewrite (bool_decide_true (length v = 11%nat)) by done.
  by rewrite (bool_decide_false (v = [])) by (by destruct v).
Qed.

(** X13. The data of a song is served by its identifier alone: a query
    or a fragment after it changes nothing.  The transcribed artifact is
    read when there is one, the raw one otherwise, and the answer is 404
    exactly for the identifiers the prober finds in neither tier. *)
Theorem song_data_by_identifier (json_load : list N → pystr + json)
    (json_encode : json → pystr + list N) (w : world) (v tail : pystr) :
  valid_token v → query_or_fragment tail = true →
  serve_song_data json_load json_encode w (str "/api/song/" ++ v ++ tail)
  = if has_transcribed w v then
      served json_load json_encode w
        (path_join (TRANSCRIBED_LYRICS_DIR w) (v ++ str ".json"))
    else if has_raw w v then
      served json_load json_encode w (path_join (RAW_LYRICS_DIR w) (v ++ str ".json"))
    else SendError 404 (str "Song file not found for video ID: " ++ v).
Proof.
  intros Hv Ht. rewrite serve_song_data_token by done. cbv zeta.
  unfold has_transcribed, has_raw.
  destruct (path_exists w (path_join (TRANSCRIBED_LYRICS_DIR w) (v ++ str ".json"))) eqn:Et;
    cbv iota; rewrite ?Et; [done|].
  by destruct (path_exists w (path_join (RAW_LYRICS_DIR w) (v ++ str ".json"))) eqn:Er;
    cbv iota; rewrite ?Er.
Qed.

Lemma song_data_by_identifier_witness :
  serve_song_data (fun _ => inr JNull) (fun _ => inr (str "null"))
    (mk_world songs_root popen_ok) (str "/api/song/" ++ vid2 ++ str "?raw=1")
  = SendJson (str "null").
Proof.
  rewrite (song_data_by_identifier (fun _ => inr JNull) (fun _ => inr (str "null"))
             (mk_world songs_root popen_ok) vid2 (str "?raw=1"));
    [by vm_compute|split; reflexivity|reflexivity].
Defined.

(** X14. The page of a song and its data stand and fall together: for a
    canonical identifier, [GET /song/<id>] and [GET /api/song/<id>] are
    both answered with 404 when the identifier has no artifact, and
    neither is when it has one; the page then names the identifier and
    the tier it read, the transcribed one whenever it has the
    artifact. *)
Theorem song_page_and_data_agree (json_load : list N → pystr + json)
    (json_encode : json → pystr + list N) (w : world) (v tail tail' : pystr) :
  valid_token v → query_or_fragment tail = true → query_or_fragment tail' = true →
  ((∃ m, do_GET json_load json_encode w (str "/song/" ++ v ++ tail) = SendError 404 m)
   ↔ has_raw w v = false ∧ has_transcribed w v = false)
  ∧ ((∃ m, do_GET json_load json_encode w (str "/api/song/" ++ v ++ tail') = SendError 404 m)
     ↔ has_raw w v = false ∧ has_transcribed w v = false)
  ∧ (∀ video_id file_type d,
       do_GET json_load json_encode w (str "/song/" ++ v ++ tail)
       = SendPage video_id file_type d →
       video_id = v
       ∧ file_type = (if has_transcribed w v then str "transcribed" else str "raw")).
Proof.
  intros Hv Ht Ht'.
  assert (do_GET json_load json_encode w (str "/api/song/" ++ v ++ tail')
          = serve_song_data json_load json_encode w (str "/api/song/" ++ v ++ tail')) as ->.
  { unfold do_GET. by destruct v. }
  assert (do_GET json_load json_encode w (str "/song/" ++ v ++ tail)
          = serve_song_detail json_load w (str "/song/" ++ v ++ tail)) as ->.
  { unfold do_GET. by destruct v. }
  rewrite serve_song_data_token by done.
  unfold serve_song_detail.
  rewrite (video_id_of_path (str "/song/") v tail) by (done || by eexists).
  cbv zeta. destruct Hv as [Hl Hv].
  rewrite (bool_decide_true (length v = 11%nat)) by done.
  rewrite (bool_decide_false (v = [])) by (by destruct v).
  cbn [orb negb]. unfold has_transcribed, has_raw, served. cbv zeta.
  destruct (path_exists w (path_join (TRANSCRIBED_LYRICS_DIR w) (v ++ str ".json"))) eqn:Et;
    cbv iota; rewrite ?Et;
    [|destruct (path_exists w (path_join (RAW_LYRICS_DIR w) (v ++ str ".json"))) eqn:Er;
      cbv iota; rewrite ?Er]; cbn [negb];
    repeat match goal with
    | |- context [and_then ?x ?f] => destruct (and_then x f)
    end;
    (split; [|split]); try (split; [by intros [? [=]]|by intros [? ?]]);
    try (split; [done|by eexists]);
    intros ? ? ? [=]; by subst.
Qed.

Lemma song_page_and_data_agree_witness :
  ∃ m, do_GET (fun _ => inr JNull) (fun _ => inr [])
         (mk_world songs_root popen_ok) (str "/song/" ++ vid3 ++ str "#top")
       = SendError 404 m.
Proof.
  apply (proj1 (song_page_and_data_agree (fun _ => inr JNull) (fun _ => inr [])
                  (mk_world songs_root popen_ok) vid3 (str "#top") []
                  ltac:(split; reflexivity) eq_refl eq_refl)).
  split; by vm_compute.
Defined.

(** ** The request for processing *)

Lemma strings_fmap (l : list pystr) : strings (JStr <$> l) = inr l.
Proof. induction l as [|u l IH]; [done|]. rewrite fmap_cons. cbn [strings]. by rewrite IH. Qed.

Lemma strings_inr (items : list json) (urls : list pystr) :
  strings items = inr urls → items = JStr <$> urls.
Proof.
  revert urls. induction items as [|i items IH]; intros urls.
  - by intros [= <-].
  - destruct i; try done. cbn [strings].
    destruct (strings items) as [e|l]; [done|]. intros [= <-].
    by rewrite fmap_cons, (IH l).
Qed.

(** On a list of strings the loop of the request is the extraction
    loop. *)
Lemma request_loop_fmap (acc : list pystr * list pystr) (urls : list pystr) :
  request_loop acc (JStr <$> urls) = collect_loop acc urls.
Proof.
  revert acc. induction urls as [|u urls IH]; intros acc; [done|].
  rewrite fmap_cons. cbn [request_loop collect_loop].
  by destruct (collect_step acc u).
Qed.

(** A value that is not a string ends the loop, if no reference before
    it has done so; the error is its own when the references before it
    could be printed. *)
Lemma request_loop_other (acc : list pystr * list pystr) (pre : list pystr) (v : json)
    (post : list json) :
  not_a_string v →
  ∃ e, request_loop acc ((JStr <$> pre) ++ v :: post) = inl e
       ∧ (printable_batch pre → e = no_attribute v (str "strip")).
Proof.
  intros Hv. revert acc. induction pre as [|u pre IH]; intros acc.
  - exists (no_attribute v (str "strip")). by destruct v.
  - rewrite fmap_cons, <- app_comm_cons. cbn [request_loop].
    destruct (collect_step acc u) as [msg|acc'] eqn:Hs.
    + exists msg. split; [done|]. intros Hp.
      rewrite collect_step_printable in Hs by (apply Hp; by left). done.
    + destruct (IH acc') as (e & -> & He). exists e. split; [done|].
      intros Hp. apply He. intros u' Hu'. apply Hp. by right.
Qed.

Lemma strings_inl (items : list json) (e : pystr) (acc : list pystr * list pystr) :
  strings items = inl e → ∃ e', request_loop acc items = inl e'.
Proof.
  revert e acc. induction items as [|i items IH]; intros e acc; [done|].
  destruct i; try (by eexists). cbn [strings request_loop].
  destruct (strings items) as [e'|l]; [|done]. intros _.
  destruct (collect_step acc s) as [msg|acc']; [by eexists|]. by apply (IH e').
Qed.

Lemma dict_get_missing (key : pystr) (members : list (pystr * json)) (d : json) :
  (∀ k v, (k, v) ∈ members → k ≠ key) → dict_get key members d = d.
Proof.
  revert d. induction members as [|[k v] members IH]; intros d Hno; [done|].
  simpl. rewrite bool_decide_false by (apply (Hno k v); by left).
  apply IH. intros k' v' Hin. apply (Hno k' v'). by right.
Qed.

Lemma handle_request_nonempty (w : world) (members : list (pystr * json))
    (i : json) (items : list json) :
  iterate (dict_get (str "urls") members (JArr [])) = inr (i :: items) →
  handle_request w (Decoded (JObj members))
  = match request_loop ([], []) (i :: items) with
    | inl e => (failure 500 e None, [])
    | inr (video_ids, invalid_urls) => process_videos w video_ids invalid_urls
    end.
Proof. intros Hi. unfold handle_request. by rewrite Hi. Qed.

(** A list of strings in the request is the batch the handler works on. *)
Lemma handle_request_strings (w : world) (members : list (pystr * json))
    (urls : list pystr) :
  iterate (dict_get (str "urls") members (JArr [])) = inr (JStr <$> urls) →
  handle_request w (Decoded (JObj members)) = handle_process w urls.
Proof.
  intros Hi. destruct urls as [|u urls].
  - unfold handle_request. by rewrite Hi.
  - rewrite fmap_cons in Hi. rewrite (handle_request_nonempty _ _ _ _ Hi).
    rewrite <- fmap_cons, request_loop_fmap. done.
Qed.

(** X15. A body that decodes to an object whose [urls] is a list of
    strings is handled as that list: everything that holds of the
    handler on a list of references holds of such a request. *)
Theorem request_with_a_list_of_strings (w : world) (members : list (pystr * json))
    (urls : list pystr) :
  dict_get (str "urls") members (JArr []) = JArr (JStr <$> urls) →
  handle_request w (Decoded (JObj members)) = handle_process w urls.
Proof.
  intros Hu. apply handle_request_strings. by rewrite Hu.
Qed.

Lemma request_with_a_list_of_strings_witness :
  handle_request (mk_world done_root popen_ok)
    (Decoded (JObj [ (str "urls", JArr [JStr vid2]);
                     (str "urls", JArr (JStr <$> spec_batch)) ]))
  = handle_process (mk_world done_root popen_ok) spec_batch.
Proof.
  apply (request_with_a_list_of_strings (mk_world done_root popen_ok)
           [ (str "urls", JArr [JStr vid2]); (str "urls", JArr (JStr <$> spec_batch)) ]
           spec_batch).
  reflexivity.
Defined.

(** X16. A body that decodes to an object with no [urls] member is
    answered like an empty list: status 400, [No URLs provided], and
    nothing done. *)
Theorem request_without_urls (w : world) (members : list (pystr * json)) :
  (∀ k v, (k, v) ∈ members → k ≠ str "urls") →
  handle_request w (Decoded (JObj members))
  = (failure 400 (str "No URLs provided") None, []).
Proof.
  intros Hno. unfold handle_request. by rewrite dict_get_missing.
Qed.

Lemma request_without_urls_witness :
  handle_request (mk_world fresh_root popen_ok)
    (Decoded (JObj [ (str "url", JArr [JStr vid1]) ]))
  = (failure 400 (str "No URLs provided") None, []).
Proof.
  apply request_without_urls.
  intros k v Hin. apply list_elem_of_singleton in Hin. injection Hin as -> _.
  by vm_compute.
Defined.

(** X17. One value that is not a string spoils the whole list: the
    answer has status 500 and no list of identifiers, and nothing is
    done, whatever identifiers stand before or after the value.  The
    references are read in their order, so the error reported is the one
    of the value, [url.strip()] failing on it, when the references
    before it could be printed. *)
Theorem request_with_a_value_not_a_string (w : world) (members : list (pystr * json))
    (pre : list pystr) (v : json) (post : list json) :
  dict_get (str "urls") members (JArr []) = JArr ((JStr <$> pre) ++ v :: post) →
  not_a_string v →
  status (handle_request w (Decoded (JObj members))).1 = 500%nat
  ∧ video_ids (handle_request w (Decoded (JObj members))).1 = None
  ∧ (handle_request w (Decoded (JObj members))).2 = []
  ∧ (printable_batch pre →
     handle_request w (Decoded (JObj members))
     = (failure 500 (no_attribute v (str "strip")) None, [])).
Proof.
  intros Hu Hv.
  destruct (request_loop_other ([], []) pre v post Hv) as (e & He & Hpre).
  assert (handle_request w (Decoded (JObj members)) = (failure 500 e None, [])) as ->.
  { destruct ((JStr <$> pre) ++ v :: post) as [|i items] eqn:Hi.
    { by destruct pre. }
    rewrite (handle_request_nonempty w members i items) by (by rewrite Hu).
    by rewrite He. }
  repeat split. intros Hp. by rewrite (Hpre Hp).
Qed.

Lemma request_with_a_value_not_a_string_witness :
  handle_request (mk_world fresh_root popen_ok)
    (Decoded (JObj [ (str "urls", JArr [JStr vid1; JNull; JStr vid2]) ]))
  = (failure 500 (str "'NoneType' object has no attribute 'strip'") None, []).
Proof.
  refine (proj2 (proj2 (proj2 (request_with_a_value_not_a_string
            (mk_world fresh_root popen_ok)
            [ (str "urls", JArr [JStr vid1; JNull; JStr vid2]) ] [vid1] JNull [JStr vid2]
            _ _))) _); [reflexivity|exact I|].
  intros u ->%list_elem_of_singleton. reflexivity.
Defined.

Lemma one_character_rejected (c : N) : accepted [c] = None.
Proof.
  unfold accepted. destruct (strip [c]) as [|x s] eqn:Hs; [done|].
  apply extract_video_id_short. rewrite <- Hs. unfold strip. simpl.
  destruct (isspace c); simpl; [lia|]. destruct (isspace c); simpl; lia.
Qed.

Lemma recognised_characters (s : pystr) : recognised ((fun c => [c]) <$> s) = [].
Proof.
  unfold recognised. rewrite collect_all_spec. cbn [fst].
  induction s as [|c s IH]; [done|].
  rewrite fmap_cons. cbn [omap list_omap]. by rewrite one_character_rejected.
Qed.

Lemma surrogate_not_space (c : N) : is_surrogate c = true → isspace c = false.
Proof.
  unfold is_surrogate, isspace, in_range.
  intros [H1%N.leb_le H2%N.leb_le]%andb_prop.
  repeat (apply orb_false_intro);
    first [apply N.eqb_neq; lia | apply andb_false_iff; right; apply N.leb_gt; lia].
Qed.

(** One character alone stays as it is or strips to nothing. *)
Lemma printable_strip_character (c : N) : printable (strip [c]) = printable [c].
Proof.
  unfold strip. simpl. destruct (isspace c) eqn:Hc; simpl; [|by rewrite Hc].
  destruct (is_surrogate c) eqn:Hs; [|done].
  apply surrogate_not_space in Hs. congruence.
Qed.

Lemma printable_characters (s : pystr) :
  printable_batch ((fun c => [c]) <$> s) ↔ printable s = true.
Proof.
  unfold printable_batch. split.
  - intros Hp. apply forallb_forall. intros c Hc.
    assert (printable (strip [c]) = true) as H.
    { apply Hp, list_elem_of_fmap. exists c. split; [done|]. by apply list_elem_of_In. }
    rewrite printable_strip_character in H. simpl in H. by rewrite andb_true_r in H.
  - intros Hs u (c & -> & Hc)%list_elem_of_fmap.
    rewrite printable_strip_character. simpl. rewrite andb_true_r.
    apply (proj1 (forallb_forall _ _) Hs). by apply list_elem_of_In.
Qed.

(** X18. A string in the place of the list is read one character at a
    time, so it never yields an identifier, not even when the string is
    one, and nothing is done.  The answer has status 400 when the
    characters can be printed, as each is reported as an invalid
    reference on the console; it has status 500 when one of them
    cannot. *)
Theorem request_with_a_string_for_the_list (w : world) (members : list (pystr * json))
    (s : pystr) :
  dict_get (str "urls") members (JArr []) = JStr s →
  video_ids (handle_request w (Decoded (JObj members))).1 = None
  ∧ (handle_request w (Decoded (JObj members))).2 = []
  ∧ (printable s = true → status (handle_request w (Decoded (JObj members))).1 = 400%nat)
  ∧ (printable s = false → status (handle_request w (Decoded (JObj members))).1 = 500%nat).
Proof.
  intros Hu.
  rewrite (handle_request_strings w members ((fun c => [c]) <$> s)).
  2:{ rewrite Hu. cbn [iterate]. by rewrite <- list_fmap_compose. }
  pose proof (recognised_characters s) as Hr.
  pose proof (printable_characters s) as Hp.
  destruct (handle_process_handled w ((fun c : N => [c]) <$> s))
    as [Hn|e Hn He|Hn Hpb _| | |]; try done; cbn [fst snd].
  - destruct s; [|done]. repeat split; done.
  - repeat split; try done. intros Hs%Hp.
    rewrite collect_loop_printable in He by done. done.
  - apply Hp in Hpb. repeat split; try done. congruence.
Qed.

Lemma request_with_a_string_for_the_list_witness :
  status (handle_request (mk_world fresh_root popen_ok)
            (Decoded (JObj [ (str "urls", JStr vid1) ]))).1 = 400%nat.
Proof.
  refine (proj1 (proj2 (proj2 (request_with_a_string_for_the_list
            (mk_world fresh_root popen_ok) [ (str "urls", JStr vid1) ] vid1 _))) _);
    reflexivity.
Defined.

Lemma handle_request_submitted (w : world) (body : post_data) :
  match submitted body with
  | Some (u :: urls) => handle_request w body = handle_process w (u :: urls)
  | _ => (handle_request w body).2 = []
  end.
Proof.
  unfold submitted. destruct body as [msg| |data]; try done.
  destruct data as [| | | | | |members]; try done.
  destruct (iterate (dict_get (str "urls") members (JArr []))) as [e|items] eqn:Hi.
  { unfold handle_request. by rewrite Hi. }
  destruct (strings items) as [e|urls] eqn:Hs.
  - destruct items as [|i items]; [done|].
    rewrite (handle_request_nonempty w members i items Hi).
    by destruct (strings_inl _ _ ([], []) Hs) as [e' ->].
  - apply strings_inr in Hs as ->.
    rewrite (handle_request_strings w members urls Hi).
    by destruct urls.
Qed.

(** X19. A request changes the world only on its way to the workers:
    when anything at all is written or launched, the request was a POST
    to [/api/process] whose body gave a list of references, at least one
    of them was admitted, and the logs directory could be made.  No
    other request, well formed or not, leaves a trace. *)
Theorem effects_only_with_admission (w : world) (path : pystr) (body : post_data) :
  (do_POST w path body).2 ≠ [] →
  path = str "/api/process"
  ∧ ∃ urls, submitted body = Some urls
            ∧ (do_POST w path body).2 = (handle_process w urls).2
            ∧ admitted w urls ≠ []
            ∧ makedirs_error w = None.
Proof.
  unfold do_POST. case_bool_decide as Hp; [|done].
  pose proof (handle_request_submitted w body) as Hs.
  destruct (submitted body) as [[|u urls]|].
  - destruct (handle_request w body) as [r tr]. simpl in *. intros Htr. exfalso. by apply Htr.
  - rewrite Hs. pose proof (handle_process_handled w (u :: urls)) as Hh.
    destruct (handle_process w (u :: urls)) as [r tr] eqn:Hhp. simpl.
    intros Htr. split; [done|]. exists (u :: urls). split; [done|].
    split; [by rewrite Hhp|].
    inversion Hh as [| | | |pids log tr' _ _ Ha Hw|e tr' _ _ Ha Hw]; subst; try done.
    + split; [done|]. by apply start_workers_inr in Hw as [? _].
    + split; [done|]. revert Hw.
      block_cases w; try (by intros [= _ <-]); intros _; by eapply makedirs_raises_None.
  - destruct (handle_request w body) as [r tr]. simpl in *. intros Htr. exfalso. by apply Htr.
Qed.

Lemma effects_only_with_admission_witness :
  admitted (mk_world fresh_root popen_no_node) [vid1] ≠ [].
Proof.
  destruct (effects_only_with_admission (mk_world fresh_root popen_no_node)
              (str "/api/process") (Decoded (JObj [ (str "urls", JArr [JStr vid1]) ])))
    as (_ & urls & Hs & _ & Ha & _).
  - by vm_compute.
  - by injection Hs as <-.
Defined.

(** ** What the workers are given *)

Lemma replace_char_none (c : N) (by_ v : pystr) :
  forallb (fun x => negb (x =? c)) v = true → replace_char c by_ v = v.
Proof.
  unfold replace_char. induction v as [|x v IH]; [done|]. simpl.
  intros [Hx Hv]%andb_prop. apply negb_true_iff in Hx. rewrite Hx. simpl.
  f_equal. by apply IH.
Qed.

Lemma build_cmd_token (w : world) (v : pystr) :
  valid_token v → build_cmd (resolve_runtime w) v = worker_command (resolve_runtime w) v.
Proof.
  intros [_ Hv]. unfold build_cmd, worker_command.
  destruct (use_nvm_bash (resolve_runtime w)) eqn:Hb.
  - rewrite (replace_char_none 39 quote_escape v) by (by apply id_chars_avoid).
    rewrite (replace_char_none 39 quote_escape script_rel_path) by reflexivity.
    reflexivity.
  - destruct (runtime_always_resolved w) as [?|Ht]; [congruence|]. by rewrite Ht.
Qed.

(** X20. The one part of a worker's command that comes from the request
    is a canonical identifier, copied as it is: every command launched is
    the fixed command of the resolved runtime followed by an identifier
    recognised in the batch, so nothing but the eleven characters of the
    class reaches the shell or the script. *)
Theorem commands_carry_only_tokens (w : world) (urls : list pystr) (cmd : list pystr) :
  cmd ∈ launches (handle_process w urls).2 →
  ∃ v, valid_token v ∧ v ∈ recognised urls
       ∧ cmd = worker_command (resolve_runtime w) v.
Proof.
  intros Hc. destruct (launches_from_admitted w urls cmd Hc) as (v & -> & Hv).
  pose proof (collect_all_valid urls v Hv) as Hok.
  exists v. split; [done|]. split; [done|]. by apply build_cmd_token.
Qed.

Lemma commands_carry_only_tokens_witness :
  ∃ v, valid_token v ∧ v ∈ recognised spec_batch
       ∧ build_cmd (resolve_runtime (mk_world nvm_only_root popen_ok)) vid1
         = worker_command (resolve_runtime (mk_world nvm_only_root popen_ok)) v.
Proof.
  apply (commands_carry_only_tokens (mk_world nvm_only_root popen_ok) spec_batch).
  vm_compute. by left.
Defined.

(** ** Blank space in a batch *)

Lemma accepted_strip (u : pystr) : accepted (strip u) = accepted u.
Proof. unfold accepted. by rewrite strip_idemp. Qed.

Lemma rejected_strip (u : pystr) : rejected (strip u) = rejected u.
Proof. unfold rejected. by rewrite strip_idemp. Qed.

Lemma collect_all_strip (urls : list pystr) :
  collect_all (strip <$> urls) = collect_all urls.
Proof.
  rewrite !collect_all_spec. f_equal.
  - induction urls as [|u urls IH]; [done|].
    rewrite fmap_cons. cbn [omap list_omap]. by rewrite accepted_strip, IH.
  - induction urls as [|u urls IH]; [done|].
    rewrite fmap_cons. cbn [omap list_omap]. by rewrite rejected_strip, IH.
Qed.

Lemma collect_step_strip (acc : list pystr * list pystr) (u : pystr) :
  collect_step acc (strip u) = collect_step acc u.
Proof. unfold collect_step, collect, reported_line. by rewrite strip_idemp. Qed.

Lemma collect_loop_strip (acc : list pystr * list pystr) (urls : list pystr) :
  collect_loop acc (strip <$> urls) = collect_loop acc urls.
Proof.
  revert acc. induction urls as [|u urls IH]; intros acc; [done|].
  rewrite fmap_cons. cbn [collect_loop]. rewrite collect_step_strip.
  by destruct (collect_step acc u).
Qed.

(** X21. White space around the references never changes the outcome:
    the batch with every reference stripped gets the same response and
    leaves the same trace. *)
Theorem padding_changes_nothing (w : world) (urls : list pystr) :
  handle_process w (strip <$> urls) = handle_process w urls.
Proof.
  unfold handle_process. destruct urls as [|u urls]; [done|].
  rewrite <- (collect_loop_strip _ (u :: urls)). by rewrite fmap_cons.
Qed.

(** X22. A batch of nothing but empty and white-space references is not
    an empty batch: it is answered with status 400 and
    [No valid YouTube video IDs found], with an empty [invalid_urls], and
    nothing is done. *)
Theorem blank_batch_has_no_identifiers (w : world) (urls : list pystr) :
  urls ≠ [] → (∀ u, u ∈ urls → forallb isspace u = true) →
  handle_process w urls
  = (failure 400 (str "No valid YouTube video IDs found") (Some []), []).
Proof.
  intros Hne Hb.
  assert (collect_all urls = ([], [])) as Hc.
  { rewrite collect_all_spec. clear Hne.
    induction urls as [|u urls IH]; [done|]. cbn [omap list_omap].
    assert (strip u = []) as Hs by (apply strip_nil, Hb; by left).
    unfold accepted at 1, rejected at 1. rewrite Hs.
    apply IH. intros u' Hu'. apply Hb. by right. }
  assert (printable_batch urls) as Hp.
  { intros u Hu. by rewrite (proj2 (strip_nil u) (Hb u Hu)). }
  unfold handle_process. destruct urls as [|u urls]; [done|].
  rewrite collect_loop_printable by done.
  change (foldl collect ([], []) (u :: urls)) with (collect_all (u :: urls)).
  by rewrite Hc.
Qed.

Lemma blank_batch_has_no_identifiers_witness :
  handle_process (mk_world fresh_root popen_ok) [str "  "; []; [9; 10]]
  = (failure 400 (str "No valid YouTube video IDs found") (Some []), []).
Proof.
  apply blank_batch_has_no_identifiers; [done|].
  intros u [->|[->|[->|[]%elem_of_nil]%elem_of_cons]%elem_of_cons]%elem_of_cons;
    reflexivity.
Defined.
